(** * The pod reconciler and the config store of the workflow controller

    A shallow embedding of [workflow/controller/controller.go]:
    [updateConfig], [handlePodUpdate], [inferFailedReason] and
    [applyUpdates], with the properties the specification states about them.

    Conventions.
    - A Go value mutated through a pointer ([node *wfv1.NodeStatus], the
      receiver [wfc]) is passed in and returned.
    - A Go [map[string]T] is a [gmap string T]; reading a missing key of a
      [map[string]string] yields the empty string, as in Go.
    - [*bool] is [option bool]: [None] is the nil pointer.
    - A [time.Time] is the number of nanoseconds since the zero instant
      (January 1, year 1, 00:00 UTC), a [Z]; the zero [time.Time] is [0].
    - One call of [handlePodUpdate] is taken to be instantaneous: each
      [time.Now()] in it reads the same instant.
    - The order in which a [range] visits a Go map is chosen by the runtime;
      the choice is an input of the function that ranges.
    - Log statements have no effect on the values computed and are left out. *)

From Stdlib Require Import ZArith Ascii String DecimalString.
From stdpp Require Import gmap strings list fin_maps.

Local Open Scope Z_scope.
Local Open Scope string_scope.

(** ** Time *)

Module time.
Definition Time := Z.
Definition IsZero (t : Time) : bool := bool_decide (t = 0).
(** [t.After(u)]: t is later than u. *)
Definition After (t u : Time) : bool := bool_decide (u < t).
Definition Nanosecond : Z := 1.
Definition Second : Z := 1000000000 * Nanosecond.
Definition Minute : Z := 60 * Second.
Definition Hour : Z := 60 * Minute.
End time.

(** ** The part of the cluster's pod type the controller reads ([apiv1]) *)

Module apiv1.
(** The phases of a pod.  [PodUnknown] stands for every phase that is none
    of the four the controller names, the [default] of its switch. *)
Inductive PodPhase :=
  PodPending | PodRunning | PodSucceeded | PodFailed | PodUnknown.

Record ContainerStateTerminated := {
  ExitCode : Z;
  Message : string;
  FinishedAt : time.Time;
}.

(** [State.Terminated] is a pointer: [None] when the container has not
    terminated. *)
Record ContainerStatus := {
  Name : string;
  Ready : bool;
  State_Terminated : option ContainerStateTerminated;
}.

Record Pod := {
  ObjectMeta_Name : string;
  ObjectMeta_Namespace : string;
  Labels : gmap string string;
  Annotations : gmap string string;
  Status_Phase : PodPhase;
  Status_Message : string;
  Status_PodIP : string;
  Status_InitContainerStatuses : list ContainerStatus;
  Status_ContainerStatuses : list ContainerStatus;
}.

Record ConfigMap := {
  Data : gmap string string;
}.

#[global] Instance PodPhase_eq_dec : EqDecision PodPhase.
Proof. solve_decision. Defined.
End apiv1.

(** Reading a Go [map[string]string] at a key: the zero value when absent. *)
Definition mapIndex (m : gmap string string) (k : string) : string :=
  default "" (m !! k).

(** ** The workflow types the controller reads and writes ([wfv1]) *)

Module wfv1.
(** Modelled from the spec: the node phases; the declaration is in the
    API package.  "phase ∈ { Pending, Running, Succeeded, Skipped, Failed,
    Error }". *)
Inductive NodePhase :=
  NodePending | NodeRunning | NodeSucceeded | NodeSkipped | NodeFailed | NodeError.

#[global] Instance NodePhase_eq_dec : EqDecision NodePhase.
Proof. solve_decision. Defined.

(** Modelled from the spec: the template decoded from the template
    annotation, of which the controller reads the daemon flag only. *)
Record Template := {
  Daemon : option bool;
}.

Section Types.
(** The structured outputs of a node.  The struct is declared in the API
    package and the controller never looks inside a decoded value. *)
Context {Outputs : Type}.

(** Modelled from the spec: the fields of a node status the controller
    reads and writes (section 3, NodeStatus). *)
Record NodeStatus := {
  Phase : NodePhase;
  Daemoned : option bool;
  PodIP : string;
  Outputs_ : option Outputs;
  Message : string;
  FinishedAt : time.Time;
}.

(** Modelled from the spec: "Succeeded/Skipped/Failed/Error are
    terminal". *)
Definition Completed (n : NodeStatus) : bool :=
  match Phase n with
  | NodeSucceeded | NodeSkipped | NodeFailed | NodeError => true
  | NodePending | NodeRunning => false
  end.

(** Modelled from the spec: "daemoned — optional boolean-by-presence",
    where absent and explicitly false are equivalent. *)
Definition IsDaemoned (n : NodeStatus) : bool :=
  match Daemoned n with
  | Some true => true
  | Some false | None => false
  end.

(** A workflow: its name and [Status.Nodes], node id to node status. *)
Record Workflow := {
  ObjectMeta_Name : string;
  Status_Nodes : gmap string NodeStatus;
}.
End Types.
Arguments NodeStatus : clear implicits.
Arguments Workflow : clear implicits.
End wfv1.

(** ** Constants of the [common] package *)

Module common.
(** Modelled from the spec: the label and annotation keys of the wire
    contract (section 3) and the names of the two containers the executor
    contract fixes. *)
Definition LabelKeyWorkflow := "workflows.argoproj.io/workflow".
Definition LabelKeyCompleted := "workflows.argoproj.io/completed".
Definition AnnotationKeyTemplate := "workflows.argoproj.io/template".
Definition AnnotationKeyOutputs := "workflows.argoproj.io/outputs".
Definition AnnotationKeyNodeMessage := "workflows.argoproj.io/node-message".
Definition MainContainerName := "main".
Definition WaitContainerName := "wait".
(** The key of the config map under which the configuration document is
    stored. *)
Definition WorkflowControllerConfigMapKey := "config".
End common.

(** ** inferFailedReason *)

(** [fmt.Sprintf("%d", n)]. *)
Definition sprintf_d (n : Z) : string := NilZero.string_of_int (Z.to_int n).

(** The inner loop shared by the init and the wait case:
    [for _, msg := range msgs { if msg != "" { errMsg += ": " + msg; break } }]. *)
Fixpoint appendFirstMessage (errMsg : string) (msgs : list string) : string :=
  match msgs with
  | [] => errMsg
  | msg :: rest =>
      if bool_decide (msg ≠ "") then errMsg +:+ ": " +:+ msg
      else appendFirstMessage errMsg rest
  end.

(** The loop over [pod.Status.InitContainerStatuses]: [Some] is the
    [return] inside the loop, [None] is falling out of it. *)
Fixpoint scanInitContainers (annotatedMsg : string)
    (ctrs : list apiv1.ContainerStatus)
    : option (wfv1.NodePhase * option bool * string) :=
  match ctrs with
  | [] => None
  | ctr :: rest =>
      match apiv1.State_Terminated ctr with
      | None => scanInitContainers annotatedMsg rest
      | Some terminated =>
          if bool_decide (apiv1.ExitCode terminated = 0)
          then scanInitContainers annotatedMsg rest
          else Some (wfv1.NodeError, Some false,
                     appendFirstMessage "failed to load artifacts"
                       [annotatedMsg; apiv1.Message terminated])
      end
  end.

(** One iteration of the loop over [pod.Status.ContainerStatuses], which
    fills the [failMessages] map. *)
Definition recordFailMessage (annotatedMsg : string)
    (failMessages : gmap string string) (ctr : apiv1.ContainerStatus)
    : gmap string string :=
  match apiv1.State_Terminated ctr with
  | None => failMessages
  | Some terminated =>
      if bool_decide (apiv1.ExitCode terminated = 0) then failMessages
      else if bool_decide (apiv1.Name ctr = common.WaitContainerName) then
        <[apiv1.Name ctr :=
            appendFirstMessage "failed to save artifacts"
              [annotatedMsg; apiv1.Message terminated]]> failMessages
      else if bool_decide (apiv1.Message terminated ≠ "") then
        <[apiv1.Name ctr := apiv1.Message terminated]> failMessages
      else
        <[apiv1.Name ctr :=
            "failed with exit code " +:+ sprintf_d (apiv1.ExitCode terminated)]>
          failMessages
  end.

(** The first value a [range] over a Go map yields.  Go leaves the iteration
    order of a map unspecified and its runtime starts every [range] at a
    random entry, so which entry comes first is a choice of the runtime: the
    [seed] stands for that choice, and every entry is the first one for some
    seed. *)
Definition rangeFirst (seed : nat) (m : gmap string string) : option string :=
  snd <$> (map_to_list m !! (seed mod size m)%nat).

Definition inferFailedReason (seed : nat) (pod : apiv1.Pod)
    : wfv1.NodePhase * option bool * string :=
  let f := false in
  if bool_decide (apiv1.Status_Message pod ≠ "") then
    (wfv1.NodeFailed, Some f, apiv1.Status_Message pod)
  else
    let annotatedMsg := mapIndex (apiv1.Annotations pod) common.AnnotationKeyNodeMessage in
    match scanInitContainers annotatedMsg (apiv1.Status_InitContainerStatuses pod) with
    | Some r => r
    | None =>
        let failMessages :=
          foldl (recordFailMessage annotatedMsg) ∅ (apiv1.Status_ContainerStatuses pod) in
        match failMessages !! common.MainContainerName with
        | Some failMsg => (wfv1.NodeFailed, Some f, failMsg)
        | None =>
            match failMessages !! common.WaitContainerName with
            | Some failMsg => (wfv1.NodeError, Some f, failMsg)
            | None =>
                match rangeFirst seed failMessages with
                | Some failMsg => (wfv1.NodeFailed, Some f, failMsg)
                | None => (wfv1.NodeFailed, Some f, "pod failed for unknown reason")
                end
            end
        end
    end.

(** ** The controller, its configuration and its collaborators *)

Record S3ArtifactRepository := {
  (** The inlined [wfv1.S3Bucket], opaque to the controller. *)
  S3Bucket : string;
  KeyPrefix : string;
}.

Record ArtifactRepository := {
  S3 : option S3ArtifactRepository;
}.

Record WorkflowControllerConfig := {
  ExecutorImage : string;
  ArtifactRepository_ : ArtifactRepository;
  Namespace : string;
  MatchLabels : gmap string string;
}.

(** The completed-pod cache, [gocache.Cache] of patrickmn/go-cache: every
    item carries the instant it expires at, in nanoseconds since the Unix
    epoch, [0] for an item that never expires.  The janitor that deletes
    expired items in the background is left out: [Get] does not find an
    expired item whether or not it was deleted. *)
Module gocache.
Record Cache := {
  defaultExpiration : Z;
  items : gmap string Z;
}.

(** [time.Now().UnixNano()] for a clock that reads [now]. *)
Definition UnixNano (now : time.Time) : Z := now - 62135596800 * time.Second.

Definition New (defaultExpiration cleanupInterval : Z) : Cache :=
  {| defaultExpiration := defaultExpiration; items := ∅ |}.

(** [_, ok := c.Get(k)]. *)
Definition Get (now : time.Time) (c : Cache) (k : string) : bool :=
  match items c !! k with
  | None => false
  | Some expiration =>
      if bool_decide (0 < expiration)
      then negb (bool_decide (expiration < UnixNano now))
      else true
  end.

(** [c.SetDefault(k, true)]. *)
Definition SetDefault (now : time.Time) (c : Cache) (k : string) : Cache :=
  let d := defaultExpiration c in
  let e := if bool_decide (0 < d) then UnixNano now + d else 0 in
  {| defaultExpiration := defaultExpiration c; items := <[k := e]> (items c) |}.
End gocache.

(** The fields of the controller that [updateConfig] and [handlePodUpdate]
    read and write; the clients and the channels are the cluster below. *)
Record WorkflowController := {
  ConfigMap : string;
  ConfigMapNS : string;
  Config : WorkflowControllerConfig;
  completedPodCache : gocache.Cache;
}.

(** The decoders of encoding/json and ghodss/yaml at the three types the
    controller decodes into; [None] is a decoding error. *)
Class Decoders := {
  Outputs : Type;
  json_Unmarshal_Outputs : string → option Outputs;
  json_Unmarshal_Template : string → option wfv1.Template;
  yaml_Unmarshal_Config : string → option WorkflowControllerConfig;
}.

(** Modelled from the spec: the cluster behind the workflow client and the
    pod labeler (section 6: [get], [update], and
    [label(podName, namespace, key, value) → error]).  [None] is an error;
    a successful write returns the cluster after it. *)
Class ClusterClient {D : Decoders} := {
  Cluster : Type;
  GetWorkflow : Cluster → string → string → option (wfv1.Workflow Outputs);
  UpdateWorkflow : Cluster → string → wfv1.Workflow Outputs → option Cluster;
  AddPodLabel : Cluster → string → string → string → string → option Cluster;
}.

(** What a call reads from the Go runtime: the wall clock, and the entry at
    which a [range] over a map starts. *)
Record Ambient := {
  now : time.Time;
  mapSeed : nat;
}.

Inductive error :=
  | Errorf (code : string) (message : string)
  | InternalWrapError.

(** The code the [errors] package gives a rejected request. *)
Definition CodeBadRequest := "ERR_BAD_REQUEST".

Section Controller.
Context {D : Decoders} {K : ClusterClient}.

Local Abbreviation NodeStatus := (wfv1.NodeStatus Outputs).
Local Abbreviation Workflow := (wfv1.Workflow Outputs).

(** *** updateConfig *)

Definition setConfig (wfc : WorkflowController) (config : WorkflowControllerConfig)
    : WorkflowController :=
  {| ConfigMap := ConfigMap wfc; ConfigMapNS := ConfigMapNS wfc;
     Config := config; completedPodCache := completedPodCache wfc |}.

Definition updateConfig (wfc : WorkflowController) (cm : apiv1.ConfigMap)
    : option error * WorkflowController :=
  match apiv1.Data cm !! common.WorkflowControllerConfigMapKey with
  | None =>
      (Some (Errorf CodeBadRequest
               ("ConfigMap '" +:+ ConfigMap wfc +:+ "' does not have key '"
                +:+ common.WorkflowControllerConfigMapKey +:+ "'")), wfc)
  | Some configStr =>
      match yaml_Unmarshal_Config configStr with
      | None => (Some InternalWrapError, wfc)
      | Some config =>
          if bool_decide (ExecutorImage config = "") then
            (Some (Errorf CodeBadRequest
                     ("ConfigMap '" +:+ ConfigMap wfc
                      +:+ "' does not have executorImage")), wfc)
          else (None, setConfig wfc config)
      end
  end.

(** *** applyUpdates *)

Definition setPhase (node : NodeStatus) (phase : wfv1.NodePhase) : NodeStatus :=
  {| wfv1.Phase := phase; wfv1.Daemoned := wfv1.Daemoned node;
     wfv1.PodIP := wfv1.PodIP node; wfv1.Outputs_ := wfv1.Outputs_ node;
     wfv1.Message := wfv1.Message node; wfv1.FinishedAt := wfv1.FinishedAt node |}.

Definition setDaemoned (node : NodeStatus) (daemoned : option bool) : NodeStatus :=
  {| wfv1.Phase := wfv1.Phase node; wfv1.Daemoned := daemoned;
     wfv1.PodIP := wfv1.PodIP node; wfv1.Outputs_ := wfv1.Outputs_ node;
     wfv1.Message := wfv1.Message node; wfv1.FinishedAt := wfv1.FinishedAt node |}.

Definition setPodIP (node : NodeStatus) (podIP : string) : NodeStatus :=
  {| wfv1.Phase := wfv1.Phase node; wfv1.Daemoned := wfv1.Daemoned node;
     wfv1.PodIP := podIP; wfv1.Outputs_ := wfv1.Outputs_ node;
     wfv1.Message := wfv1.Message node; wfv1.FinishedAt := wfv1.FinishedAt node |}.

Definition setOutputs (node : NodeStatus) (outputs : option Outputs) : NodeStatus :=
  {| wfv1.Phase := wfv1.Phase node; wfv1.Daemoned := wfv1.Daemoned node;
     wfv1.PodIP := wfv1.PodIP node; wfv1.Outputs_ := outputs;
     wfv1.Message := wfv1.Message node; wfv1.FinishedAt := wfv1.FinishedAt node |}.

Definition setMessage (node : NodeStatus) (message : string) : NodeStatus :=
  {| wfv1.Phase := wfv1.Phase node; wfv1.Daemoned := wfv1.Daemoned node;
     wfv1.PodIP := wfv1.PodIP node; wfv1.Outputs_ := wfv1.Outputs_ node;
     wfv1.Message := message; wfv1.FinishedAt := wfv1.FinishedAt node |}.

Definition setFinishedAt (node : NodeStatus) (t : time.Time) : NodeStatus :=
  {| wfv1.Phase := wfv1.Phase node; wfv1.Daemoned := wfv1.Daemoned node;
     wfv1.PodIP := wfv1.PodIP node; wfv1.Outputs_ := wfv1.Outputs_ node;
     wfv1.Message := wfv1.Message node; wfv1.FinishedAt := t |}.

(** [if node.Phase != newPhase { ... }] *)
Definition updatePhase (newPhase : wfv1.NodePhase) (st : bool * NodeStatus)
    : bool * NodeStatus :=
  let '(updateNeeded, node) := st in
  if bool_decide (wfv1.Phase node ≠ newPhase) then
    if wfv1.Completed node then (updateNeeded, node)
    else (true, setPhase node newPhase)
  else (updateNeeded, node).

(** [if newDaemonStatus != nil { ... }] *)
Definition updateDaemoned (pod : apiv1.Pod) (newDaemonStatus : option bool)
    (st : bool * NodeStatus) : bool * NodeStatus :=
  let '(updateNeeded, node) := st in
  match newDaemonStatus with
  | None => (updateNeeded, node)
  | Some b =>
      let newDaemonStatus := if bool_decide (b = false) then None else newDaemonStatus in
      if bool_decide (newDaemonStatus ≠ None ∧ wfv1.Daemoned node = None)
         || bool_decide (newDaemonStatus = None ∧ wfv1.Daemoned node ≠ None)
      then
        let node := setDaemoned node newDaemonStatus in
        let node :=
          if bool_decide (apiv1.Status_PodIP pod ≠ wfv1.PodIP node)
          then setPodIP node (apiv1.Status_PodIP pod) else node in
        (true, node)
      else (updateNeeded, node)
  end.

(** [outputStr, ok := pod.Annotations[...]; if ok && node.Outputs == nil { ... }] *)
Definition updateOutputs (pod : apiv1.Pod) (st : bool * NodeStatus)
    : bool * NodeStatus :=
  let '(updateNeeded, node) := st in
  match apiv1.Annotations pod !! common.AnnotationKeyOutputs, wfv1.Outputs_ node with
  | Some outputStr, None =>
      match json_Unmarshal_Outputs outputStr with
      | None => (true, setPhase node wfv1.NodeError)
      | Some outputs => (true, setOutputs node (Some outputs))
      end
  | _, _ => (updateNeeded, node)
  end.

(** [if message != "" && node.Message != message { ... }] *)
Definition updateMessage (message : string) (st : bool * NodeStatus)
    : bool * NodeStatus :=
  let '(updateNeeded, node) := st in
  if bool_decide (message ≠ "") && bool_decide (wfv1.Message node ≠ message)
  then (updateNeeded, setMessage node message)
  else (updateNeeded, node).

(** The body of the two loops over container statuses. *)
Definition laterFinishedAt (node : NodeStatus) (ctr : apiv1.ContainerStatus)
    : NodeStatus :=
  match apiv1.State_Terminated ctr with
  | Some terminated =>
      if time.After (apiv1.FinishedAt terminated) (wfv1.FinishedAt node)
      then setFinishedAt node (apiv1.FinishedAt terminated) else node
  | None => node
  end.

(** [if node.Completed() && node.FinishedAt.IsZero() { ... }] *)
Definition updateFinishedAt (now : time.Time) (pod : apiv1.Pod)
    (st : bool * NodeStatus) : bool * NodeStatus :=
  let '(updateNeeded, node) := st in
  if wfv1.Completed node && time.IsZero (wfv1.FinishedAt node) then
    let node :=
      if negb (wfv1.IsDaemoned node) then
        let node := foldl laterFinishedAt node (apiv1.Status_InitContainerStatuses pod) in
        foldl laterFinishedAt node (apiv1.Status_ContainerStatuses pod)
      else node in
    let node :=
      if time.IsZero (wfv1.FinishedAt node) then setFinishedAt node now else node in
    (true, node)
  else (updateNeeded, node).

(** The five steps in the order of the source; the result is the returned
    [updateNeeded] and the node as the call leaves it. *)
Definition applyUpdates (now : time.Time) (pod : apiv1.Pod) (node : NodeStatus)
    (newPhase : wfv1.NodePhase) (newDaemonStatus : option bool) (message : string)
    : bool * NodeStatus :=
  updateFinishedAt now pod
    (updateMessage message
       (updateOutputs pod
          (updateDaemoned pod newDaemonStatus
             (updatePhase newPhase (false, node))))).

(** *** handlePodUpdate *)

(** What one call leaves behind: the controller (its cache), the cluster,
    and the writes the call issued, in order. *)
Inductive Write :=
  | WorkflowWrite (namespace : string) (wf : Workflow)
  | PodLabelWrite (name namespace key value : string)
  | CacheWrite (name : string).

Record Outcome := {
  controller : WorkflowController;
  cluster : Cluster;
  writes : list Write;
}.

(** The write is a call of [UpdateWorkflow]. *)
Definition isWorkflowWrite (w : Write) : Prop :=
  ∃ namespace wf, w = WorkflowWrite namespace wf.

(** The [switch pod.Status.Phase]: [None] is a [return] out of
    [handlePodUpdate], [Some] carries [newPhase], [newDaemonStatus] and
    [message] past the switch. *)
Definition podPhaseSwitch (seed : nat) (pod : apiv1.Pod)
    : option (wfv1.NodePhase * option bool * string) :=
  match apiv1.Status_Phase pod with
  | apiv1.PodPending => None
  | apiv1.PodSucceeded => Some (wfv1.NodeSucceeded, Some false, "")
  | apiv1.PodFailed => Some (inferFailedReason seed pod)
  | apiv1.PodRunning =>
      match apiv1.Annotations pod !! common.AnnotationKeyTemplate with
      | None => None
      | Some tmplStr =>
          match json_Unmarshal_Template tmplStr with
          | None => None
          | Some tmpl =>
              match wfv1.Daemon tmpl with
              | None | Some false => None
              | Some true =>
                  if forallb apiv1.Ready (apiv1.Status_ContainerStatuses pod)
                  then Some (wfv1.NodeSucceeded, Some true, "")
                  else None
              end
          end
      end
  | apiv1.PodUnknown => Some (wfv1.NodeError, None, "")
  end.

Definition setNode (wf : Workflow) (name : string) (node : NodeStatus) : Workflow :=
  {| wfv1.ObjectMeta_Name := wfv1.ObjectMeta_Name wf;
     wfv1.Status_Nodes := <[name := node]> (wfv1.Status_Nodes wf) |}.

Definition setCache (wfc : WorkflowController) (c : gocache.Cache)
    : WorkflowController :=
  {| ConfigMap := ConfigMap wfc; ConfigMapNS := ConfigMapNS wfc;
     Config := Config wfc; completedPodCache := c |}.

(** The function up to the line before [if node.Completed()]: [inl] is a
    [return] on the way, [inr] reaches that line with the node as
    [applyUpdates] left it. *)
Definition reconcileNode (amb : Ambient) (pod : apiv1.Pod)
    (wfc : WorkflowController) (c : Cluster) : Outcome + NodeStatus * Outcome :=
  let unchanged := {| controller := wfc; cluster := c; writes := [] |} in
  if gocache.Get (now amb) (completedPodCache wfc) (apiv1.ObjectMeta_Name pod)
  then inl unchanged
  else if bool_decide (mapIndex (apiv1.Labels pod) common.LabelKeyCompleted = "true")
  then inl unchanged
  else
    match apiv1.Labels pod !! common.LabelKeyWorkflow with
    | None => inl unchanged
    | Some workflowName =>
        match podPhaseSwitch (mapSeed amb) pod with
        | None => inl unchanged
        | Some (newPhase, newDaemonStatus, message) =>
            match GetWorkflow c (apiv1.ObjectMeta_Namespace pod) workflowName with
            | None => inl unchanged
            | Some wf =>
                match wfv1.Status_Nodes wf !! apiv1.ObjectMeta_Name pod with
                | None => inl unchanged
                | Some node =>
                    let '(updateNeeded, node) :=
                      applyUpdates (now amb) pod node newPhase newDaemonStatus message in
                    if negb updateNeeded then inr (node, unchanged)
                    else
                      let wf := setNode wf (apiv1.ObjectMeta_Name pod) node in
                      let w := WorkflowWrite (apiv1.ObjectMeta_Namespace pod) wf in
                      match UpdateWorkflow c (apiv1.ObjectMeta_Namespace pod) wf with
                      | None =>
                          inl {| controller := wfc; cluster := c; writes := [w] |}
                      | Some c' =>
                          inr (node, {| controller := wfc; cluster := c'; writes := [w] |})
                      end
                end
            end
        end
    end.

(** [if node.Completed() { ... }], the end of the function. *)
Definition labelCompleted (amb : Ambient) (pod : apiv1.Pod) (node : NodeStatus)
    (o : Outcome) : Outcome :=
  if wfv1.Completed node then
    if negb (wfv1.IsDaemoned node) then
      let l := PodLabelWrite (apiv1.ObjectMeta_Name pod) (apiv1.ObjectMeta_Namespace pod)
                 common.LabelKeyCompleted "true" in
      match AddPodLabel (cluster o) (apiv1.ObjectMeta_Name pod)
              (apiv1.ObjectMeta_Namespace pod) common.LabelKeyCompleted "true" with
      | None =>
          {| controller := controller o; cluster := cluster o;
             writes := writes o ++ [l] |}
      | Some c' =>
          {| controller :=
               setCache (controller o)
                 (gocache.SetDefault (now amb) (completedPodCache (controller o))
                    (apiv1.ObjectMeta_Name pod));
             cluster := c';
             writes := writes o ++ [l; CacheWrite (apiv1.ObjectMeta_Name pod)] |}
      end
    else o
  else o.

Definition handlePodUpdate (amb : Ambient) (pod : apiv1.Pod)
    (wfc : WorkflowController) (c : Cluster) : Outcome :=
  match reconcileNode amb pod wfc c with
  | inl o => o
  | inr (node, o) => labelCompleted amb pod node o
  end.

End Controller.

(** [NewWorkflowController] as far as the fields above go: the config is the
    zero value until [ResyncConfig], and the completed-pod cache keeps an
    entry for one hour. *)
Definition NewWorkflowController (configMap : string) : WorkflowController :=
  {| ConfigMap := configMap;
     ConfigMapNS := "";
     Config := {| ExecutorImage := ""; ArtifactRepository_ := {| S3 := None |};
                  Namespace := ""; MatchLabels := ∅ |};
     completedPodCache := gocache.New (1 * time.Hour) (10 * time.Minute) |}.

(** ** The requests of the watches

    A [rest.Request] of client-go as far as the controller builds it: the
    namespace, the resource, and the query parameters, each a list of values
    in the order [Param] added them. *)
Module rest.
Record Request := {
  namespace : string;
  resource : string;
  params : gmap string (list string);
}.

(** [r.Param(paramName, value)]: the value is appended to the values the
    parameter already has. *)
Definition Param (r : Request) (paramName value : string) : Request :=
  {| namespace := namespace r; resource := resource r;
     params := <[paramName := (default [] (params r !! paramName) ++ [value])%list]>
                 (params r) |}.
End rest.

(** The entries of a Go map in the order a [range] visits them.  The runtime
    chooses where the range starts: [seed] stands for that choice, as in
    [rangeFirst]. *)
Definition rangeOrder (seed : nat) (m : gmap string string) : list (string * string) :=
  rotate seed (map_to_list m).

(** [addLabelSelectors]: one [labelSelector] parameter per entry of
    [wfc.Config.MatchLabels]. *)
Definition addLabelSelectors (seed : nat) (wfc : WorkflowController)
    (req : rest.Request) : rest.Request :=
  foldl (λ req entry, rest.Param req "labelSelector" (entry.1 +:+ "=" +:+ entry.2))
    req (rangeOrder seed (MatchLabels (Config wfc))).

(** ** The config source, the informers and the dispatch loop *)

(** A config map as the config-map client returns it: its namespace beside
    its data. *)
Record ConfigMapObject := {
  cmNamespace : string;
  cmBody : apiv1.ConfigMap;
}.

(** What [ResyncConfig] reads besides the controller: the environment
    ([os.LookupEnv], [None] for a variable that is not set), the two
    constants of the [common] package that name the variable and the default
    namespace, and the config-map client ([None] is an error). *)
Class ConfigSource {D : Decoders} {K : ClusterClient} := {
  LookupEnv : string → option string;
  EnvVarNamespace : string;
  DefaultControllerNamespace : string;
  GetConfigMap : Cluster → string → string → option ConfigMapObject;
}.

(** Modelled from the spec: the workflow operator, [operate(workflow)]
    (section 4.E), which may write to the cluster and is not part of the
    file; it is given the controller and returns it. *)
Class WorkflowOperator {D : Decoders} {K : ClusterClient} := {
  operateWorkflow :
    WorkflowController → Cluster → wfv1.Workflow Outputs → WorkflowController * Cluster;
}.

Section Dispatch.
Context {D : Decoders} {K : ClusterClient} {S : ConfigSource} {O : WorkflowOperator}.

Local Abbreviation Workflow := (wfv1.Workflow Outputs).

(** *** ResyncConfig *)

Definition setConfigMapNS (wfc : WorkflowController) (namespace : string)
    : WorkflowController :=
  {| ConfigMap := ConfigMap wfc; ConfigMapNS := namespace;
     Config := Config wfc; completedPodCache := completedPodCache wfc |}.

Definition ResyncConfig (wfc : WorkflowController) (c : Cluster)
    : option error * WorkflowController :=
  let namespace := default "" (LookupEnv EnvVarNamespace) in
  let namespace :=
    if bool_decide (namespace = "") then DefaultControllerNamespace else namespace in
  match GetConfigMap c namespace (ConfigMap wfc) with
  | None => (Some InternalWrapError, wfc)
  | Some cm => updateConfig (setConfigMapNS wfc (cmNamespace cm)) (cmBody cm)
  end.

(** *** The handlers of the informers *)

(** What an informer hands to a handler: an [interface{}], of which the
    handlers test the dynamic type. *)
Inductive Object :=
  | WorkflowObject (wf : Workflow)
  | PodObject (pod : apiv1.Pod)
  | ConfigMapObj (cm : apiv1.ConfigMap)
  | OtherObject.

(** The two channels of the controller, oldest event first. *)
Record Channels := {
  wfUpdates : list Workflow;
  podUpdates : list apiv1.Pod;
}.

Definition wfUpdatesCapacity : Z := 10240.
Definition podUpdatesCapacity : Z := 102400.

(** [ch <- x] on a channel with a buffer of [capacity]: [None] when the
    buffer is full and the send has to wait. *)
Definition send {A : Type} (capacity : Z) (ch : list A) (x : A) : option (list A) :=
  if bool_decide (Z.of_nat (length ch) < capacity)%Z then Some (ch ++ [x])%list else None.

(** The body the three handlers of [watchWorkflows] share. *)
Definition enqueueWorkflow (obj : Object) (ch : Channels) : option Channels :=
  match obj with
  | WorkflowObject wf =>
      (λ q, {| wfUpdates := q; podUpdates := podUpdates ch |})
        <$> send wfUpdatesCapacity (wfUpdates ch) wf
  | _ => Some ch
  end.

Definition workflowAddFunc (obj : Object) := enqueueWorkflow obj.
Definition workflowUpdateFunc (old new : Object) := enqueueWorkflow new.
Definition workflowDeleteFunc (obj : Object) := enqueueWorkflow obj.

(** The body the three handlers of [watchWorkflowPods] share. *)
Definition enqueuePod (obj : Object) (ch : Channels) : option Channels :=
  match obj with
  | PodObject pod =>
      (λ q, {| wfUpdates := wfUpdates ch; podUpdates := q |})
        <$> send podUpdatesCapacity (podUpdates ch) pod
  | _ => Some ch
  end.

Definition podAddFunc (obj : Object) := enqueuePod obj.
Definition podUpdateFunc (old new : Object) := enqueuePod new.
Definition podDeleteFunc (obj : Object) := enqueuePod obj.

(** The objects of a list delivered to the pod informer's handlers one
    after the other; [None] when a send has to wait. *)
Definition deliverPods (objs : list Object) (ch : Channels) : option Channels :=
  foldl (λ ch obj, ch ≫= podAddFunc obj) (Some ch) objs.

(** The pods among the objects of a list. *)
Definition podsOf (objs : list Object) : list apiv1.Pod :=
  omap (λ obj, match obj with PodObject pod => Some pod | _ => None end) objs.

(** The two handlers of [watchControllerConfigMap]: the error of
    [updateConfig] is logged and dropped.  There is no handler for a
    deletion. *)
Definition configMapAddFunc (obj : Object) (wfc : WorkflowController)
    : WorkflowController :=
  match obj with
  | ConfigMapObj cm => (updateConfig wfc cm).2
  | _ => wfc
  end.

Definition configMapUpdateFunc (old new : Object) (wfc : WorkflowController)
    : WorkflowController :=
  configMapAddFunc new wfc.

(** An event of the config-map informer. *)
Inductive ConfigMapEvent :=
  | ConfigMapAdded (obj : Object)
  | ConfigMapUpdated (old new : Object).

Definition onConfigMapEvent (wfc : WorkflowController) (e : ConfigMapEvent)
    : WorkflowController :=
  match e with
  | ConfigMapAdded obj => configMapAddFunc obj wfc
  | ConfigMapUpdated old new => configMapUpdateFunc old new wfc
  end.

(** *** The loop of Run *)

(** The state of the loop: the counter [i], whether the loop is waiting in
    its [select], the channels, the controller and the cluster, and the
    channel sizes logged so far. *)
Record Loop := {
  Run_i : Z;
  waiting : bool;
  channels : Channels;
  Run_wfc : WorkflowController;
  Run_cluster : Cluster;
  sizeLogs : list (nat * nat);
}.

(** [if i%100 == 0 { i += 1; log.Infof(...) }] *)
Definition logChannelSizes (st : Loop) : Loop :=
  if bool_decide (Z.rem (Run_i st) 100 = 0) then
    {| Run_i := Run_i st + 1; waiting := waiting st; channels := channels st;
       Run_wfc := Run_wfc st; Run_cluster := Run_cluster st;
       sizeLogs := (sizeLogs st
                    ++ [(length (wfUpdates (channels st)),
                         length (podUpdates (channels st)))])%list |}
  else st.

Definition afterOperate (st : Loop) (wf : Workflow) (wfs : list Workflow) : Loop :=
  let r := operateWorkflow (Run_wfc st) (Run_cluster st) wf in
  {| Run_i := Run_i st; waiting := false;
     channels := {| wfUpdates := wfs; podUpdates := podUpdates (channels st) |};
     Run_wfc := r.1; Run_cluster := r.2; sizeLogs := sizeLogs st |}.

Definition afterHandle (amb : Ambient) (st : Loop) (pod : apiv1.Pod)
    (pods : list apiv1.Pod) : Loop :=
  let o := handlePodUpdate amb pod (Run_wfc st) (Run_cluster st) in
  {| Run_i := Run_i st; waiting := false;
     channels := {| wfUpdates := wfUpdates (channels st); podUpdates := pods |};
     Run_wfc := controller o; Run_cluster := cluster o; sizeLogs := sizeLogs st |}.

(** One turn of the loop, from where it stands: the [if] unless the loop
    already waits in the [select], then the [select].  When both channels
    have an event the runtime picks one: [pickWorkflow] stands for that
    choice.  When neither has, the loop waits. *)
Definition RunIteration (amb : Ambient) (pickWorkflow : bool) (st : Loop) : Loop :=
  let st := if waiting st then st else logChannelSizes st in
  match wfUpdates (channels st), podUpdates (channels st) with
  | [], [] =>
      {| Run_i := Run_i st; waiting := true; channels := channels st;
         Run_wfc := Run_wfc st; Run_cluster := Run_cluster st; sizeLogs := sizeLogs st |}
  | wf :: wfs, [] => afterOperate st wf wfs
  | [], pod :: pods => afterHandle amb st pod pods
  | wf :: wfs, pod :: pods =>
      if pickWorkflow then afterOperate st wf wfs else afterHandle amb st pod pods
  end.

(** The loop run for the turns of a list, each with what it reads from the
    runtime. *)
Definition RunLoop (turns : list (Ambient * bool)) (st : Loop) : Loop :=
  foldl (λ st turn, RunIteration turn.1 turn.2 st) st turns.

(** The state [Run] enters its loop with. *)
Definition RunStart (ch : Channels) (wfc : WorkflowController) (c : Cluster) : Loop :=
  {| Run_i := 0; waiting := false; channels := ch; Run_wfc := wfc; Run_cluster := c;
     sizeLogs := [] |}.

(** The pods of a list handled one after the other, each at its instant. *)
Definition handlePods (observations : list (Ambient * apiv1.Pod))
    (wfc : WorkflowController) (c : Cluster) : WorkflowController * Cluster :=
  foldl (λ st obs,
           let o := handlePodUpdate obs.1 obs.2 st.1 st.2 in (controller o, cluster o))
    (wfc, c) observations.

End Dispatch.


(** ** The vocabulary of the specification

    The notions the specification states its properties with, written from
    its words, for the theorems to compare the code with. *)

(** The container terminated with a non-zero exit code. *)
Definition failedWith (ctr : apiv1.ContainerStatus)
    (t : apiv1.ContainerStateTerminated) : Prop :=
  apiv1.State_Terminated ctr = Some t ∧ apiv1.ExitCode t ≠ 0.

Definition hasFailed (ctr : apiv1.ContainerStatus) : Prop :=
  ∃ t, failedWith ctr t.

Definition noneFailed (ctrs : list apiv1.ContainerStatus) : Prop :=
  ∀ ctr, ctr ∈ ctrs → ¬ hasFailed ctr.

Definition noneFailedNamed (name : string) (ctrs : list apiv1.ContainerStatus) : Prop :=
  ∀ ctr, ctr ∈ ctrs → apiv1.Name ctr = name → ¬ hasFailed ctr.

(** [base], "optionally suffixed with ": " + m, where m is the first
    non-empty of annotations[node-message] and terminated.message". *)
Definition suffixed (base : string) (pod : apiv1.Pod)
    (t : apiv1.ContainerStateTerminated) : string :=
  let annotated := mapIndex (apiv1.Annotations pod) common.AnnotationKeyNodeMessage in
  if bool_decide (annotated ≠ "") then base +:+ ": " +:+ annotated
  else if bool_decide (apiv1.Message t ≠ "") then base +:+ ": " +:+ apiv1.Message t
  else base.

(** The message of a failed container other than wait: "terminated.message,
    or "failed with exit code N" when empty". *)
Definition containerMessage (t : apiv1.ContainerStateTerminated) : string :=
  if bool_decide (apiv1.Message t ≠ "") then apiv1.Message t
  else "failed with exit code " +:+ sprintf_d (apiv1.ExitCode t).

(** The message the specification gives a failed container of the pod: for
    the wait container "failed to save artifacts" with its suffix, for any
    other its own message. *)
Definition failMessage (pod : apiv1.Pod) (ctr : apiv1.ContainerStatus)
    (t : apiv1.ContainerStateTerminated) : string :=
  if bool_decide (apiv1.Name ctr = common.WaitContainerName)
  then suffixed "failed to save artifacts" pod t
  else containerMessage t.

(** The precedence of section 4.F, one rule per case, each with the cases
    before it excluded. *)
Inductive FailedReason (pod : apiv1.Pod)
    : wfv1.NodePhase * option bool * string → Prop :=
  | reason_pod_message :
      apiv1.Status_Message pod ≠ "" →
      FailedReason pod (wfv1.NodeFailed, Some false, apiv1.Status_Message pod)
  | reason_init before ctr t after :
      apiv1.Status_Message pod = "" →
      apiv1.Status_InitContainerStatuses pod = (before ++ ctr :: after)%list →
      noneFailed before →
      failedWith ctr t →
      FailedReason pod
        (wfv1.NodeError, Some false, suffixed "failed to load artifacts" pod t)
  | reason_main ctr t :
      apiv1.Status_Message pod = "" →
      noneFailed (apiv1.Status_InitContainerStatuses pod) →
      ctr ∈ apiv1.Status_ContainerStatuses pod →
      apiv1.Name ctr = common.MainContainerName →
      failedWith ctr t →
      FailedReason pod (wfv1.NodeFailed, Some false, containerMessage t)
  | reason_wait ctr t :
      apiv1.Status_Message pod = "" →
      noneFailed (apiv1.Status_InitContainerStatuses pod) →
      noneFailedNamed common.MainContainerName (apiv1.Status_ContainerStatuses pod) →
      ctr ∈ apiv1.Status_ContainerStatuses pod →
      apiv1.Name ctr = common.WaitContainerName →
      failedWith ctr t →
      FailedReason pod
        (wfv1.NodeError, Some false, suffixed "failed to save artifacts" pod t)
  | reason_sidecar ctr t :
      apiv1.Status_Message pod = "" →
      noneFailed (apiv1.Status_InitContainerStatuses pod) →
      noneFailedNamed common.MainContainerName (apiv1.Status_ContainerStatuses pod) →
      noneFailedNamed common.WaitContainerName (apiv1.Status_ContainerStatuses pod) →
      ctr ∈ apiv1.Status_ContainerStatuses pod →
      failedWith ctr t →
      FailedReason pod (wfv1.NodeFailed, Some false, containerMessage t)
  | reason_unknown :
      apiv1.Status_Message pod = "" →
      noneFailed (apiv1.Status_InitContainerStatuses pod) →
      noneFailed (apiv1.Status_ContainerStatuses pod) →
      FailedReason pod (wfv1.NodeFailed, Some false, "pod failed for unknown reason").

(** Two sidecars with different names failed, and nothing that takes
    precedence over a sidecar did. *)
Definition severalSidecarsFailed (pod : apiv1.Pod) : Prop :=
  apiv1.Status_Message pod = ""
  ∧ noneFailed (apiv1.Status_InitContainerStatuses pod)
  ∧ noneFailedNamed common.MainContainerName (apiv1.Status_ContainerStatuses pod)
  ∧ noneFailedNamed common.WaitContainerName (apiv1.Status_ContainerStatuses pod)
  ∧ ∃ ctr1 ctr2,
      ctr1 ∈ apiv1.Status_ContainerStatuses pod
      ∧ ctr2 ∈ apiv1.Status_ContainerStatuses pod
      ∧ hasFailed ctr1 ∧ hasFailed ctr2 ∧ apiv1.Name ctr1 ≠ apiv1.Name ctr2.

(** The [terminated.finishedAt] of the init and main containers that have
    one, in declared order. *)
Definition terminatedAt (ctrs : list apiv1.ContainerStatus) : list time.Time :=
  omap (λ ctr, apiv1.FinishedAt <$> apiv1.State_Terminated ctr) ctrs.

(** The latest of them, the zero instant when there is none after it. *)
Definition latestFinishedAt (pod : apiv1.Pod) : time.Time :=
  foldr Z.max 0
    (terminatedAt (apiv1.Status_InitContainerStatuses pod
                   ++ apiv1.Status_ContainerStatuses pod)%list).

Section Vocabulary.
Context {D : Decoders}.

(** The pod carries an outputs annotation, the node has no outputs yet,
    and the annotation does not decode. *)
Definition outputsUndecodable (pod : apiv1.Pod) (node : wfv1.NodeStatus Outputs) : Prop :=
  ∃ outputStr,
    apiv1.Annotations pod !! common.AnnotationKeyOutputs = Some outputStr
    ∧ wfv1.Outputs_ node = None
    ∧ json_Unmarshal_Outputs outputStr = None.

(** The pod with other init container statuses. *)
Definition withInitContainerStatuses (pod : apiv1.Pod)
    (init : list apiv1.ContainerStatus) : apiv1.Pod :=
  {| apiv1.ObjectMeta_Name := apiv1.ObjectMeta_Name pod;
     apiv1.ObjectMeta_Namespace := apiv1.ObjectMeta_Namespace pod;
     apiv1.Labels := apiv1.Labels pod;
     apiv1.Annotations := apiv1.Annotations pod;
     apiv1.Status_Phase := apiv1.Status_Phase pod;
     apiv1.Status_Message := apiv1.Status_Message pod;
     apiv1.Status_PodIP := apiv1.Status_PodIP pod;
     apiv1.Status_InitContainerStatuses := init;
     apiv1.Status_ContainerStatuses := apiv1.Status_ContainerStatuses pod |}.
End Vocabulary.


(** ** A concrete cluster and concrete documents

    The theorems below hold for every decoder and every cluster.  The
    examples need one of each: decoders given by a table of the documents
    the examples use (each entry is what encoding/json and ghodss/yaml
    return for that document, anything else here is a decoding error), and a
    cluster held in memory. *)
Module Sample.
Definition quote : string := String "034"%char "".

(** [{"daemon":true}] *)
Definition daemonTemplate : string := "{" +:+ quote +:+ "daemon" +:+ quote +:+ ":true}".

(** The decoded outputs: the output parameters by name. *)
Definition Parameters := gmap string string.

Definition outputsOf (s : string) : option Parameters :=
  if bool_decide (s = "{}") then Some ∅ else None.

Definition templateOf (s : string) : option wfv1.Template :=
  if bool_decide (s = daemonTemplate) then Some {| wfv1.Daemon := Some true |}
  else if bool_decide (s = "{}") then Some {| wfv1.Daemon := None |}
  else None.

Definition configOf (executorImage : string) : WorkflowControllerConfig :=
  {| ExecutorImage := executorImage; ArtifactRepository_ := {| S3 := None |};
     Namespace := ""; MatchLabels := ∅ |}.

Definition configFrom (s : string) : option WorkflowControllerConfig :=
  if bool_decide (s = "executorImage: argoproj/argoexec:latest")
  then Some (configOf "argoproj/argoexec:latest")
  else if bool_decide (s = "namespace: argo")
  then Some {| ExecutorImage := ""; ArtifactRepository_ := {| S3 := None |};
               Namespace := "argo"; MatchLabels := ∅ |}
  else None.

#[export] Instance decoders : Decoders :=
  {| Outputs := Parameters;
     json_Unmarshal_Outputs := outputsOf;
     json_Unmarshal_Template := templateOf;
     yaml_Unmarshal_Config := configFrom |}.

(** The cluster: the workflows and the labels of the pods, each listed
    under its namespace and name. *)
Record Memory := {
  workflows : list (string * string * wfv1.Workflow Parameters);
  podLabels : list (string * string * gmap string string);
}.

Definition named {A : Type} (namespace name : string) (entry : string * string * A) : bool :=
  bool_decide (entry.1 = (namespace, name)).

(** The first entry under the name. *)
Fixpoint lookupNamed {A : Type} (namespace name : string) (l : list (string * string * A))
    : option A :=
  match l with
  | [] => None
  | entry :: l => if named namespace name entry then Some entry.2 else lookupNamed namespace name l
  end.

(** The list with every entry under the name replaced. *)
Definition replaceNamed {A : Type} (namespace name : string) (x : A)
    (l : list (string * string * A)) : list (string * string * A) :=
  (λ entry, if named namespace name entry then (namespace, name, x) else entry) <$> l.

Definition get (c : Memory) (namespace name : string)
    : option (wfv1.Workflow Parameters) :=
  lookupNamed namespace name (workflows c).

Definition update (c : Memory) (namespace : string)
    (wf : wfv1.Workflow Parameters) : option Memory :=
  match lookupNamed namespace (wfv1.ObjectMeta_Name wf) (workflows c) with
  | None => None
  | Some _ =>
      Some {| workflows := replaceNamed namespace (wfv1.ObjectMeta_Name wf) wf (workflows c);
              podLabels := podLabels c |}
  end.

Definition label (c : Memory) (name namespace key value : string)
    : option Memory :=
  match lookupNamed namespace name (podLabels c) with
  | None => None
  | Some labels =>
      Some {| workflows := workflows c;
              podLabels := replaceNamed namespace name (<[key := value]> labels) (podLabels c) |}
  end.

#[export] Instance client : ClusterClient :=
  {| Cluster := Memory;
     GetWorkflow := get;
     UpdateWorkflow := update;
     AddPodLabel := label |}.
End Sample.

(** ** Inputs of the examples *)

Module Scenario.
Import Sample.

(** 2018-01-01 00:00 UTC. *)
Definition jan2018 : time.Time := 63650361600 * time.Second.

Definition terminated (name : string) (exitCode : Z) (message : string)
    (finishedAt : time.Time) : apiv1.ContainerStatus :=
  {| apiv1.Name := name; apiv1.Ready := false;
     apiv1.State_Terminated :=
       Some {| apiv1.ExitCode := exitCode; apiv1.Message := message;
               apiv1.FinishedAt := finishedAt |} |}.

Definition running (name : string) (ready : bool) : apiv1.ContainerStatus :=
  {| apiv1.Name := name; apiv1.Ready := ready; apiv1.State_Terminated := None |}.

Definition pod (name namespace : string) (labels annotations : gmap string string)
    (phase : apiv1.PodPhase) (message : string)
    (init main : list apiv1.ContainerStatus) : apiv1.Pod :=
  {| apiv1.ObjectMeta_Name := name; apiv1.ObjectMeta_Namespace := namespace;
     apiv1.Labels := labels; apiv1.Annotations := annotations;
     apiv1.Status_Phase := phase; apiv1.Status_Message := message;
     apiv1.Status_PodIP := "10.0.0.7";
     apiv1.Status_InitContainerStatuses := init;
     apiv1.Status_ContainerStatuses := main |}.

Definition node (phase : wfv1.NodePhase) (daemoned : option bool)
    (message : string) (finishedAt : time.Time) : wfv1.NodeStatus Parameters :=
  {| wfv1.Phase := phase; wfv1.Daemoned := daemoned; wfv1.PodIP := "";
     wfv1.Outputs_ := None; wfv1.Message := message; wfv1.FinishedAt := finishedAt |}.

Definition ofWorkflow (wf : string) : gmap string string :=
  {[ common.LabelKeyWorkflow := wf ]}.

(** A cluster with the workflow [wf] in each of the namespaces [argo] and
    [staging], both with a running node [step], and a pod [step] in each. *)
Definition twoNamespaces : Memory :=
  let wf := {| wfv1.ObjectMeta_Name := "wf";
               wfv1.Status_Nodes := {[ "step" := node wfv1.NodeRunning None "" 0 ]} |} in
  {| workflows := [("argo", "wf", wf); ("staging", "wf", wf)];
     podLabels := [("argo", "step", ofWorkflow "wf");
                   ("staging", "step", ofWorkflow "wf")] |}.

Definition controller0 : WorkflowController :=
  NewWorkflowController "workflow-controller-configmap".

Definition at_ (t : time.Time) : Ambient := {| now := t; mapSeed := 0 |}.

(** The pod [step] of namespace [argo], succeeded. *)
Definition succeededPod (namespace : string) : apiv1.Pod :=
  pod "step" namespace (ofWorkflow "wf") ∅ apiv1.PodSucceeded ""
    [] [terminated "main" 0 "" (jan2018 + 3 * time.Second);
        terminated "wait" 0 "" (jan2018 + 4 * time.Second)].

(** A running daemon pod whose init container has finished. *)
Definition daemonPod : apiv1.Pod :=
  pod "step" "argo" (ofWorkflow "wf")
    {[ common.AnnotationKeyTemplate := daemonTemplate ]} apiv1.PodRunning ""
    [terminated "init" 0 "" (jan2018 + 1 * time.Second)]
    [running "main" true; running "wait" true].

(** A failed pod in which two sidecars failed and main and wait did not. *)
Definition twoSidecarsFailed : apiv1.Pod :=
  pod "step" "argo" (ofWorkflow "wf") ∅ apiv1.PodFailed ""
    [] [terminated "main" 0 "" jan2018;
        terminated "db" 137 "killed" jan2018;
        terminated "proxy" 1 "" jan2018].

(** A succeeded pod whose outputs annotation is the empty document, which
    encoding/json rejects. *)
Definition badOutputsPod : apiv1.Pod :=
  pod "step" "argo" (ofWorkflow "wf") {[ common.AnnotationKeyOutputs := "" ]}
    apiv1.PodSucceeded "" [] [terminated "main" 0 "" jan2018].

(** A failed pod that reports its reason in [status.message]. *)
Definition evictedPod : apiv1.Pod :=
  pod "step" "argo" (ofWorkflow "wf") ∅ apiv1.PodFailed
    "The node was low on resource: memory." [] [].

(** A running daemon pod that reports no container status yet. *)
Definition bareDaemonPod : apiv1.Pod :=
  pod "step" "argo" (ofWorkflow "wf")
    {[ common.AnnotationKeyTemplate := daemonTemplate ]} apiv1.PodRunning ""
    [running "init" false] [].

(** The succeeded pod after it was labelled completed. *)
Definition labelledPod : apiv1.Pod :=
  pod "step" "argo"
    (<[ common.LabelKeyCompleted := "true" ]> (ofWorkflow "wf")) ∅
    apiv1.PodSucceeded "" [] [terminated "main" 0 "" jan2018].

(** The node [step] already recorded as failed, with an earlier message. *)
Definition failedNode : wfv1.NodeStatus Parameters :=
  node wfv1.NodeFailed None "Pod was active on the node longer than the deadline"
    (jan2018 + 5 * time.Second).

Definition failedAlready : Memory :=
  {| workflows :=
       [("argo", "wf",
         {| wfv1.ObjectMeta_Name := "wf";
            wfv1.Status_Nodes := {[ "step" := failedNode ]} |})];
     podLabels := [("argo", "step", ofWorkflow "wf")] |}.

Definition configMap (payload : string) : apiv1.ConfigMap :=
  {| apiv1.Data := {[ common.WorkflowControllerConfigMapKey := payload ]} |}.

(** Ten seconds into 2018, and the outcome of observing the succeeded pod
    of namespace [argo] then. *)
Definition t1 : time.Time := jan2018 + 10 * time.Second.

Definition firstObservation : Outcome :=
  handlePodUpdate (at_ t1) (succeededPod "argo") controller0 twoNamespaces.

(** The node as the first observation leaves it, the workflow it writes, and
    the state after that write. *)
Definition succeededNode : wfv1.NodeStatus Parameters :=
  node wfv1.NodeSucceeded None "" (jan2018 + 4 * time.Second).

Definition recordedWorkflow : wfv1.Workflow Parameters :=
  {| wfv1.ObjectMeta_Name := "wf";
     wfv1.Status_Nodes := {[ "step" := succeededNode ]} |}.

Definition afterWorkflowWrite : Outcome :=
  {| controller := controller0;
     cluster := {| workflows := replaceNamed "argo" "wf" recordedWorkflow (workflows twoNamespaces);
                   podLabels := podLabels twoNamespaces |};
     writes := [WorkflowWrite "argo" recordedWorkflow] |}.

(** A cluster whose node [step] is running and carries an explicit
    daemoned = false. *)
Definition explicitlyNotDaemoned : Memory :=
  {| workflows :=
       [("argo", "wf",
         {| wfv1.ObjectMeta_Name := "wf";
            wfv1.Status_Nodes := {[ "step" := node wfv1.NodeRunning (Some false) "" 0 ]} |})];
     podLabels := [("argo", "step", ofWorkflow "wf")] |}.

(** The running daemon pod without container statuses, with an outputs
    annotation that does not decode. *)
Definition daemonBadOutputsPod : apiv1.Pod :=
  pod "step" "argo" (ofWorkflow "wf")
    (<[ common.AnnotationKeyOutputs := "" ]>
       {[ common.AnnotationKeyTemplate := daemonTemplate ]})
    apiv1.PodRunning "" [] [].

(** The running daemon pod without container statuses, labelled
    completed. *)
Definition labelledDaemonPod : apiv1.Pod :=
  pod "step" "argo"
    (<[ common.LabelKeyCompleted := "true" ]> (ofWorkflow "wf"))
    {[ common.AnnotationKeyTemplate := daemonTemplate ]} apiv1.PodRunning "" [] [].

(** The outcome of observing the succeeded pod [step] of namespace
    [staging]: the node of that namespace is written, the pod labelled, and
    the name [step] cached. *)
Definition stagingObservation : Outcome :=
  handlePodUpdate (at_ t1) (succeededPod "staging") controller0 twoNamespaces.

(** The phase and the daemoned field of the node [step] in each workflow
    that an outcome wrote. *)
Definition writtenSteps (o : Outcome) : list (wfv1.NodePhase * option bool) :=
  omap (λ w, match w with
             | WorkflowWrite _ wf =>
                 (λ n, (wfv1.Phase n, wfv1.Daemoned n)) <$> wfv1.Status_Nodes wf !! "step"
             | _ => None
             end) (writes o).
End Scenario.

(** ** A concrete deployment

    An operator, a config source and further cluster states for the
    examples of the dispatch loop and of the config store. *)
Module Deployment.
Import Sample Scenario.

(** An operator that finds nothing to do. *)
#[export] Instance operator : WorkflowOperator (K := client) :=
  {| operateWorkflow wfc c wf := (wfc, c) |}.

(** No namespace in the environment, and one config map, in the default
    namespace. *)
#[export] Instance configSource : ConfigSource (K := client) :=
  {| LookupEnv name := None;
     EnvVarNamespace := "ARGO_NAMESPACE";
     DefaultControllerNamespace := "kube-system";
     GetConfigMap c namespace name :=
       if bool_decide (namespace = "kube-system"
                       ∧ name = "workflow-controller-configmap")
       then Some {| cmNamespace := "kube-system";
                    cmBody := configMap "executorImage: argoproj/argoexec:latest" |}
       else None |}.

(** The cluster held in memory, refusing every workflow write. *)
Definition readOnly : ClusterClient (D := decoders) :=
  {| Cluster := Memory;
     GetWorkflow := get;
     UpdateWorkflow c namespace wf := None;
     AddPodLabel := label |}.

Definition withNode (n : wfv1.NodeStatus Parameters) : Memory :=
  {| workflows :=
       [("argo", "wf",
         {| wfv1.ObjectMeta_Name := "wf"; wfv1.Status_Nodes := {[ "step" := n ]} |})];
     podLabels := [("argo", "step", ofWorkflow "wf")] |}.

(** The node [step] succeeded as a daemon, its pod still running. *)
Definition daemonedNode : wfv1.NodeStatus Parameters :=
  {| wfv1.Phase := wfv1.NodeSucceeded; wfv1.Daemoned := Some true;
     wfv1.PodIP := "10.0.0.7"; wfv1.Outputs_ := None; wfv1.Message := "";
     wfv1.FinishedAt := t1 |}.

(** A pod without the workflow label. *)
Definition strayPod : apiv1.Pod :=
  pod "step" "argo" ∅ ∅ apiv1.PodSucceeded "" [] [terminated "main" 0 "" jan2018].

(** The pod channel with the succeeded pods of the two namespaces. *)
Definition twoPods : Channels :=
  {| wfUpdates := []; podUpdates := [succeededPod "argo"; succeededPod "staging"] |}.

Definition noEvents : Channels := {| wfUpdates := []; podUpdates := [] |}.
End Deployment.


(** * Properties *)

Section Properties.
Context {D : Decoders} {K : ClusterClient}.

Local Abbreviation NodeStatus := (wfv1.NodeStatus Outputs).
Local Abbreviation Workflow := (wfv1.Workflow Outputs).

Implicit Types (node : NodeStatus) (pod : apiv1.Pod) (st : bool * NodeStatus).

(** ** What each step of [applyUpdates] leaves alone *)

Ltac step_cases :=
  repeat first
    [ progress simpl in *
    | case_bool_decide
    | case_match
    | progress subst ];
  try done.

Lemma updatePhase_completed newPhase u node :
  wfv1.Completed node = true → updatePhase newPhase (u, node) = (u, node).
Proof. intros Hc. unfold updatePhase. rewrite Hc. by case_bool_decide. Qed.

Lemma updatePhase_frame newPhase st :
  let n := (updatePhase newPhase st).2 in
  wfv1.Daemoned n = wfv1.Daemoned st.2 ∧ wfv1.PodIP n = wfv1.PodIP st.2
  ∧ wfv1.Outputs_ n = wfv1.Outputs_ st.2 ∧ wfv1.Message n = wfv1.Message st.2
  ∧ wfv1.FinishedAt n = wfv1.FinishedAt st.2.
Proof. destruct st as [u n]. unfold updatePhase. step_cases. Qed.

Lemma updateDaemoned_frame pod newDaemonStatus st :
  let n := (updateDaemoned pod newDaemonStatus st).2 in
  wfv1.Phase n = wfv1.Phase st.2 ∧ wfv1.Outputs_ n = wfv1.Outputs_ st.2
  ∧ wfv1.Message n = wfv1.Message st.2 ∧ wfv1.FinishedAt n = wfv1.FinishedAt st.2.
Proof. destruct st as [u n]. unfold updateDaemoned. step_cases. Qed.

Lemma updateOutputs_frame pod st :
  let n := (updateOutputs pod st).2 in
  wfv1.Daemoned n = wfv1.Daemoned st.2 ∧ wfv1.PodIP n = wfv1.PodIP st.2
  ∧ wfv1.Message n = wfv1.Message st.2 ∧ wfv1.FinishedAt n = wfv1.FinishedAt st.2.
Proof. destruct st as [u n]. unfold updateOutputs. step_cases. Qed.

Lemma updateMessage_frame message st :
  let n := (updateMessage message st).2 in
  (updateMessage message st).1 = st.1
  ∧ wfv1.Phase n = wfv1.Phase st.2 ∧ wfv1.Daemoned n = wfv1.Daemoned st.2
  ∧ wfv1.PodIP n = wfv1.PodIP st.2 ∧ wfv1.Outputs_ n = wfv1.Outputs_ st.2
  ∧ wfv1.FinishedAt n = wfv1.FinishedAt st.2.
Proof.
  destruct st as [u n]. unfold updateMessage.
  destruct (bool_decide _ && bool_decide _); done.
Qed.

Lemma laterFinishedAt_frame l : ∀ node,
  let n := foldl laterFinishedAt node l in
  wfv1.Phase n = wfv1.Phase node ∧ wfv1.Daemoned n = wfv1.Daemoned node
  ∧ wfv1.PodIP n = wfv1.PodIP node ∧ wfv1.Outputs_ n = wfv1.Outputs_ node
  ∧ wfv1.Message n = wfv1.Message node.
Proof.
  induction l as [|ctr l IH]; intros node; [done|].
  simpl. destruct (IH (laterFinishedAt node ctr)) as (-> & -> & -> & -> & ->).
  unfold laterFinishedAt. step_cases.
Qed.

Lemma updateFinishedAt_frame now pod st :
  let n := (updateFinishedAt now pod st).2 in
  wfv1.Phase n = wfv1.Phase st.2 ∧ wfv1.Daemoned n = wfv1.Daemoned st.2
  ∧ wfv1.PodIP n = wfv1.PodIP st.2 ∧ wfv1.Outputs_ n = wfv1.Outputs_ st.2
  ∧ wfv1.Message n = wfv1.Message st.2.
Proof.
  destruct st as [u n]. unfold updateFinishedAt.
  destruct (wfv1.Completed n && time.IsZero (wfv1.FinishedAt n)); [|done].
  pose proof (laterFinishedAt_frame (apiv1.Status_InitContainerStatuses pod) n) as Hi.
  pose proof (laterFinishedAt_frame (apiv1.Status_ContainerStatuses pod)
                (foldl laterFinishedAt n (apiv1.Status_InitContainerStatuses pod))) as Hm.
  simpl in Hi, Hm.
  destruct Hi as (Hi1 & Hi2 & Hi3 & Hi4 & Hi5).
  destruct Hm as (Hm1 & Hm2 & Hm3 & Hm4 & Hm5).
  destruct (negb (wfv1.IsDaemoned n)); simpl;
    repeat case_match; simpl; rewrite ?Hm1, ?Hm2, ?Hm3, ?Hm4, ?Hm5; done.
Qed.

(** ** applyUpdates: the returned flag *)

Lemma updatePhase_unreported newPhase st :
  (updatePhase newPhase st).1 = false → updatePhase newPhase st = st.
Proof. destruct st as [u n]. unfold updatePhase. step_cases. Qed.

Lemma updateDaemoned_unreported pod newDaemonStatus st :
  (updateDaemoned pod newDaemonStatus st).1 = false →
  updateDaemoned pod newDaemonStatus st = st.
Proof.
  destruct st as [u n]. unfold updateDaemoned.
  destruct newDaemonStatus as [b|]; [|done].
  destruct (bool_decide _ || bool_decide _); done.
Qed.

Lemma updateOutputs_unreported pod st :
  (updateOutputs pod st).1 = false → updateOutputs pod st = st.
Proof. destruct st as [u n]. unfold updateOutputs. step_cases. Qed.

Lemma updateFinishedAt_unreported now pod st :
  (updateFinishedAt now pod st).1 = false → updateFinishedAt now pod st = st.
Proof.
  destruct st as [u n]. unfold updateFinishedAt.
  destruct (wfv1.Completed n && time.IsZero (wfv1.FinishedAt n)); done.
Qed.

(** When [applyUpdates] returns false, the message is the one field that
    may differ from its value before the call. *)
Lemma applyUpdates_false_frame now pod node newPhase newDaemonStatus message :
  let r := applyUpdates now pod node newPhase newDaemonStatus message in
  r.1 = false →
  wfv1.Phase r.2 = wfv1.Phase node ∧ wfv1.Daemoned r.2 = wfv1.Daemoned node
  ∧ wfv1.PodIP r.2 = wfv1.PodIP node ∧ wfv1.Outputs_ r.2 = wfv1.Outputs_ node
  ∧ wfv1.FinishedAt r.2 = wfv1.FinishedAt node
  ∧ (wfv1.Message r.2 = wfv1.Message node ∨ wfv1.Message r.2 = message).
Proof.
  cbv zeta. unfold applyUpdates. intros Hr.
  pose proof (updateFinishedAt_unreported _ _ _ Hr) as E0. rewrite E0 in Hr |- *. clear E0.
  set (st3 := updateOutputs _ _) in *.
  destruct (updateMessage_frame message st3) as (Hu & Hp & Hd & Hi & Ho & Hf).
  rewrite Hu in Hr. rewrite Hp, Hd, Hi, Ho, Hf.
  assert (wfv1.Message (updateMessage message st3).2 = wfv1.Message st3.2
          ∨ wfv1.Message (updateMessage message st3).2 = message) as Hm.
  { destruct st3 as [u n]. unfold updateMessage.
    destruct (bool_decide _ && bool_decide _); simpl; auto. }
  clear Hu Hp Hd Hi Ho Hf. revert Hm. generalize (updateMessage message st3).2.
  subst st3. intros n Hm.
  pose proof (updateOutputs_unreported _ _ Hr) as E1. rewrite E1 in Hr, Hm |- *. clear E1.
  pose proof (updateDaemoned_unreported _ _ _ Hr) as E2. rewrite E2 in Hr, Hm |- *. clear E2.
  pose proof (updatePhase_unreported _ _ Hr) as E3. rewrite E3 in Hm |- *.
  done.
Qed.

(** ** applyUpdates: the phase of a terminal node *)

Lemma updateOutputs_phase pod st :
  (outputsUndecodable pod st.2 → wfv1.Phase (updateOutputs pod st).2 = wfv1.NodeError)
  ∧ (¬ outputsUndecodable pod st.2 →
     wfv1.Phase (updateOutputs pod st).2 = wfv1.Phase st.2).
Proof.
  destruct st as [u n]. unfold updateOutputs, outputsUndecodable. simpl.
  destruct (apiv1.Annotations pod !! common.AnnotationKeyOutputs) as [s|] eqn:Ha.
  - destruct (wfv1.Outputs_ n) as [o|] eqn:Ho.
    + split; [intros (? & _ & ? & _); done | done].
    + destruct (json_Unmarshal_Outputs s) as [o|] eqn:Hd; simpl.
      * split; [intros (s' & Hs & _ & Hn); congruence | done].
      * split; [done | intros Hn; destruct Hn; eauto].
  - split; [intros (? & ? & _); done | done].
Qed.

(** C2, as amended.  A node that is terminal on entry to [applyUpdates]
    keeps its phase whatever [newPhase] is, unless the pod carries an
    outputs annotation that fails to decode while the node has no outputs:
    then the phase on return is Error. *)
Theorem applyUpdates_terminal_phase now pod node newPhase newDaemonStatus message :
  wfv1.Completed node = true →
  let node' := (applyUpdates now pod node newPhase newDaemonStatus message).2 in
  (outputsUndecodable pod node → wfv1.Phase node' = wfv1.NodeError)
  ∧ (¬ outputsUndecodable pod node → wfv1.Phase node' = wfv1.Phase node).
Proof.
  intros Hc. cbv zeta. unfold applyUpdates.
  rewrite (updatePhase_completed _ _ _ Hc).
  set (st1 := updateDaemoned _ _ _).
  destruct (updateDaemoned_frame pod newDaemonStatus (false, node))
    as (Hp & Ho & _ & _). fold st1 in Hp, Ho. simpl in Hp, Ho.
  destruct (updateFinishedAt_frame now pod (updateMessage message (updateOutputs pod st1)))
    as (-> & _).
  destruct (updateMessage_frame message (updateOutputs pod st1)) as (_ & -> & _).
  assert (outputsUndecodable pod st1.2 ↔ outputsUndecodable pod node) as Hiff.
  { unfold outputsUndecodable. by rewrite Ho. }
  destruct (updateOutputs_phase pod st1) as [H1 H2].
  rewrite <- Hp. split; intros Hu; [apply H1 | apply H2]; by rewrite Hiff.
Qed.

(** ** applyUpdates: finishedAt *)

Lemma foldr_max_max (l : list Z) (a t : Z) :
  foldr Z.max (Z.max a t) l = Z.max t (foldr Z.max a l).
Proof. induction l as [|x l IH]; simpl; [lia | rewrite IH; lia]. Qed.

Lemma foldr_max_swap (l1 l2 : list Z) (a : Z) :
  foldr Z.max (foldr Z.max a l1) l2 = foldr Z.max (foldr Z.max a l2) l1.
Proof.
  induction l1 as [|x l1 IH]; simpl; [done|].
  by rewrite Z.max_comm, foldr_max_max, IH.
Qed.

Lemma foldr_max_ge (l : list Z) (a : Z) : (a ≤ foldr Z.max a l)%Z.
Proof. induction l as [|x l IH]; simpl; lia. Qed.

Lemma foldl_laterFinishedAt ctrs : ∀ node,
  wfv1.FinishedAt (foldl laterFinishedAt node ctrs)
  = foldr Z.max (wfv1.FinishedAt node) (terminatedAt ctrs).
Proof.
  induction ctrs as [|ctr ctrs IH]; intros node; [done|].
  simpl. rewrite IH. unfold terminatedAt, laterFinishedAt, time.After. simpl.
  destruct (apiv1.State_Terminated ctr) as [t|]; simpl; [|done].
  case_bool_decide; simpl.
  - replace (apiv1.FinishedAt t)
      with (Z.max (wfv1.FinishedAt node) (apiv1.FinishedAt t)) at 1 by lia.
    apply foldr_max_max.
  - rewrite <- foldr_max_max. f_equal. lia.
Qed.

(** C7, as amended.  When the node is terminal on return and its
    finishedAt was zero on entry: for a node that is not daemoned,
    finishedAt becomes the latest [terminated.finishedAt] of the init and
    main containers if one lies after the zero instant and the current
    time otherwise; for a daemoned node it becomes the current time and
    the containers are not consulted.  A finishedAt that is not zero on
    entry is kept, and finishedAt changes only when the phase on return is
    terminal. *)
Theorem applyUpdates_finishedAt now pod node newPhase newDaemonStatus message :
  let node' := (applyUpdates now pod node newPhase newDaemonStatus message).2 in
  (wfv1.Completed node' = true → wfv1.FinishedAt node = 0 →
     wfv1.FinishedAt node' =
       if wfv1.IsDaemoned node' then now
       else if bool_decide (0 < latestFinishedAt pod) then latestFinishedAt pod
       else now)
  ∧ (wfv1.FinishedAt node ≠ 0 → wfv1.FinishedAt node' = wfv1.FinishedAt node)
  ∧ (wfv1.FinishedAt node' ≠ wfv1.FinishedAt node → wfv1.Completed node' = true).
Proof.
  cbv zeta. unfold applyUpdates.
  set (st := updateMessage _ _).
  assert (wfv1.FinishedAt st.2 = wfv1.FinishedAt node) as Hf.
  { subst st.
    destruct (updateMessage_frame message
      (updateOutputs pod (updateDaemoned pod newDaemonStatus
         (updatePhase newPhase (false, node))))) as (_ & _ & _ & _ & _ & ->).
    destruct (updateOutputs_frame pod (updateDaemoned pod newDaemonStatus
         (updatePhase newPhase (false, node)))) as (_ & _ & _ & ->).
    destruct (updateDaemoned_frame pod newDaemonStatus
         (updatePhase newPhase (false, node))) as (_ & _ & _ & ->).
    by destruct (updatePhase_frame newPhase (false, node)) as (_ & _ & _ & _ & ->). }
  destruct (updateFinishedAt_frame now pod st) as (Hp & Hd & _).
  unfold wfv1.Completed, wfv1.IsDaemoned. rewrite Hp, Hd.
  fold (wfv1.Completed st.2) (wfv1.IsDaemoned st.2).
  rewrite <- Hf. clear Hf Hp Hd. destruct st as [u n]. simpl.
  unfold updateFinishedAt, time.IsZero.
  destruct (wfv1.Completed n) eqn:Hc; simpl.
  - case_bool_decide as Hz; simpl; [|done].
    split; [intros _ _ | split; [done | done]].
    destruct (wfv1.IsDaemoned n); simpl.
    + rewrite bool_decide_eq_true_2 by done. done.
    + unfold latestFinishedAt, terminatedAt.
      rewrite omap_app, foldr_app.
      fold (terminatedAt (apiv1.Status_InitContainerStatuses pod)).
      fold (terminatedAt (apiv1.Status_ContainerStatuses pod)).
      rewrite (foldr_max_swap (terminatedAt (apiv1.Status_ContainerStatuses pod))).
      pose proof (foldl_laterFinishedAt (apiv1.Status_ContainerStatuses pod)
        (foldl laterFinishedAt n (apiv1.Status_InitContainerStatuses pod))) as E.
      rewrite (foldl_laterFinishedAt (apiv1.Status_InitContainerStatuses pod) n), Hz in E.
      revert E. generalize (foldl laterFinishedAt
        (foldl laterFinishedAt n (apiv1.Status_InitContainerStatuses pod))
        (apiv1.Status_ContainerStatuses pod)).
      set (latest := foldr Z.max _ _). intros n' E.
      assert (0 ≤ latest)%Z.
      { subst latest. etrans; [|apply foldr_max_ge]. apply foldr_max_ge. }
      repeat case_bool_decide; simpl; lia.
  - split; [done | split; done].
Qed.

(** ** inferFailedReason *)

Lemma appendFirstMessage_suffixed base pod t :
  appendFirstMessage base
    [mapIndex (apiv1.Annotations pod) common.AnnotationKeyNodeMessage; apiv1.Message t]
  = suffixed base pod t.
Proof. unfold suffixed. simpl. by repeat case_bool_decide. Qed.

Lemma scanInitContainers_Some annotatedMsg ctrs r :
  scanInitContainers annotatedMsg ctrs = Some r →
  ∃ before ctr t after,
    ctrs = (before ++ ctr :: after)%list ∧ noneFailed before ∧ failedWith ctr t
    ∧ r = (wfv1.NodeError, Some false,
           appendFirstMessage "failed to load artifacts"
             [annotatedMsg; apiv1.Message t]).
Proof.
  induction ctrs as [|ctr ctrs IH]; simpl; [done|].
  assert (¬ hasFailed ctr → scanInitContainers annotatedMsg ctrs = Some r →
          ∃ before ctr0 t after,
            ctr :: ctrs = (before ++ ctr0 :: after)%list ∧ noneFailed before
            ∧ failedWith ctr0 t
            ∧ r = (wfv1.NodeError, Some false,
                   appendFirstMessage "failed to load artifacts"
                     [annotatedMsg; apiv1.Message t])) as Hskip.
  { intros Hok Hr. destruct (IH Hr) as (before & c & t & after & -> & Hb & Hf & ->).
    exists (ctr :: before), c, t, after. split_and!; [done| |done|done].
    intros c' [->|Hin]%elem_of_cons; [done | by apply Hb]. }
  destruct (apiv1.State_Terminated ctr) as [t|] eqn:Ht.
  - case_bool_decide as Hz.
    + apply Hskip. intros (t' & Ht' & Hnz). congruence.
    + intros [= <-]. exists [], ctr, t, ctrs.
      split_and!; [done| |done|done]. intros c Hin. by apply elem_of_nil in Hin.
  - apply Hskip. intros (t' & Ht' & _). congruence.
Qed.

Lemma scanInitContainers_None annotatedMsg ctrs :
  scanInitContainers annotatedMsg ctrs = None → noneFailed ctrs.
Proof.
  induction ctrs as [|ctr ctrs IH]; simpl; intros Hs c Hin.
  - by apply elem_of_nil in Hin.
  - apply elem_of_cons in Hin as [->|Hin].
    + intros (t & Ht & Hnz). rewrite Ht in Hs. by case_bool_decide.
    + destruct (apiv1.State_Terminated ctr); [case_bool_decide; [|done]|];
        by apply IH.
Qed.

Lemma recordFailMessage_cases pod m ctr :
  let a := mapIndex (apiv1.Annotations pod) common.AnnotationKeyNodeMessage in
  (¬ hasFailed ctr ∧ recordFailMessage a m ctr = m)
  ∨ (∃ t, failedWith ctr t
       ∧ recordFailMessage a m ctr = <[apiv1.Name ctr := failMessage pod ctr t]> m).
Proof.
  intros a. unfold recordFailMessage, failMessage.
  destruct (apiv1.State_Terminated ctr) as [t|] eqn:Ht.
  - case_bool_decide as Hz.
    + left. split; [|done]. intros (t' & Ht' & Hnz). congruence.
    + right. exists t. split; [done|].
      rewrite <- appendFirstMessage_suffixed. fold a. unfold containerMessage.
      by repeat case_bool_decide.
  - left. split; [|done]. intros (t' & Ht' & _). congruence.
Qed.

Lemma failMessages_Some pod ctrs : ∀ m k v,
  foldl (recordFailMessage (mapIndex (apiv1.Annotations pod) common.AnnotationKeyNodeMessage))
    m ctrs !! k = Some v →
  m !! k = Some v
  ∨ ∃ ctr t, ctr ∈ ctrs ∧ apiv1.Name ctr = k ∧ failedWith ctr t
             ∧ v = failMessage pod ctr t.
Proof.
  induction ctrs as [|ctr ctrs IH]; simpl; intros m k v Hl; [by left|].
  apply IH in Hl as [Hl|(c & t & Hin & Hn & Hf & ->)].
  - destruct (recordFailMessage_cases pod m ctr) as [[_ E]|(t & Hf & E)];
      rewrite E in Hl; [by left|].
    destruct (decide (apiv1.Name ctr = k)) as [<-|Hne].
    + rewrite lookup_insert_eq in Hl. injection Hl as <-.
      right. exists ctr, t. split_and!; [apply list_elem_of_here|done..].
    + rewrite lookup_insert_ne in Hl by done. by left.
  - right. exists c, t. split_and!; [by apply list_elem_of_further|done..].
Qed.

Lemma failMessages_None pod ctrs : ∀ m k,
  foldl (recordFailMessage (mapIndex (apiv1.Annotations pod) common.AnnotationKeyNodeMessage))
    m ctrs !! k = None →
  m !! k = None ∧ noneFailedNamed k ctrs.
Proof.
  induction ctrs as [|ctr ctrs IH]; simpl; intros m k Hl.
  - split; [done|]. intros c Hin. by apply elem_of_nil in Hin.
  - apply IH in Hl as [Hl Hrest].
    destruct (recordFailMessage_cases pod m ctr) as [[Hok E]|(t & Hf & E)];
      rewrite E in Hl.
    + split; [done|]. intros c [->|Hin]%elem_of_cons; [done | by apply Hrest].
    + destruct (decide (apiv1.Name ctr = k)) as [<-|Hne].
      * by rewrite lookup_insert_eq in Hl.
      * rewrite lookup_insert_ne in Hl by done. split; [done|].
        intros c [->|Hin]%elem_of_cons; [done | by apply Hrest].
Qed.

Lemma rangeFirst_Some seed (m : gmap string string) v :
  rangeFirst seed m = Some v → ∃ k, m !! k = Some v.
Proof.
  unfold rangeFirst. intros Hr.
  apply fmap_Some in Hr as ([k v'] & Hl & ->).
  exists k. apply elem_of_map_to_list. by eapply list_elem_of_lookup_2.
Qed.

Lemma rangeFirst_None seed (m : gmap string string) :
  rangeFirst seed m = None → m = ∅.
Proof.
  unfold rangeFirst. intros Hr. apply fmap_None, lookup_ge_None in Hr.
  rewrite length_map_to_list in Hr. apply map_size_empty_inv.
  destruct (size m) as [|n] eqn:Hs; [done|].
  pose proof (Nat.mod_upper_bound seed (S n)). lia.
Qed.

(** Every entry of the map is the first of the range for some seed. *)
Lemma rangeFirst_any (m : gmap string string) k v :
  m !! k = Some v → ∃ seed, rangeFirst seed m = Some v.
Proof.
  intros Hl. apply elem_of_map_to_list, list_elem_of_lookup in Hl as [i Hi].
  exists i. unfold rangeFirst.
  apply lookup_lt_Some in Hi as Hlt. rewrite length_map_to_list in Hlt.
  by rewrite Nat.mod_small, Hi.
Qed.

(** C3.  For a failed pod, [inferFailedReason] resolves the phase and the
    message by the precedence of the specification: the pod's own message;
    else the first failed init container (Error, failed to load
    artifacts); else a failed main container (Failed, its message); else a
    failed wait container (Error, failed to save artifacts); else a failed
    sidecar (Failed, a sidecar's message); else Failed for an unknown
    reason.  The daemon flag is false throughout. *)
Theorem inferFailedReason_precedence seed pod :
  FailedReason pod (inferFailedReason seed pod).
Proof.
  unfold inferFailedReason.
  case_bool_decide as Hm; [by constructor|].
  assert (apiv1.Status_Message pod = "") as Hm'.
  { by destruct (decide (apiv1.Status_Message pod = "")). }
  set (a := mapIndex _ _).
  destruct (scanInitContainers a _) as [r|] eqn:Hi.
  { apply scanInitContainers_Some in Hi as (before & c & t & after & Hl & Hb & Hf & ->).
    subst a. rewrite appendFirstMessage_suffixed. by econstructor. }
  apply scanInitContainers_None in Hi.
  set (fm := foldl _ _ _).
  destruct (fm !! common.MainContainerName) as [v|] eqn:Hmain.
  { apply failMessages_Some in Hmain as [?|(c & t & Hin & Hn & Hf & ->)]; [done|].
    unfold failMessage. rewrite Hn, bool_decide_eq_false_2 by done.
    by eapply reason_main. }
  apply failMessages_None in Hmain as [_ Hmain].
  destruct (fm !! common.WaitContainerName) as [v|] eqn:Hwait.
  { apply failMessages_Some in Hwait as [?|(c & t & Hin & Hn & Hf & ->)]; [done|].
    unfold failMessage. rewrite bool_decide_eq_true_2 by done.
    by eapply reason_wait. }
  apply failMessages_None in Hwait as [_ Hwait].
  destruct (rangeFirst seed fm) as [v|] eqn:Hr.
  - apply rangeFirst_Some in Hr as [k Hk].
    apply failMessages_Some in Hk as [?|(c & t & Hin & Hn & Hf & ->)]; [done|].
    unfold failMessage. rewrite bool_decide_eq_false_2.
    + by eapply reason_sidecar.
    + intros Hw. eapply Hwait; [done..|by exists t].
  - apply rangeFirst_None in Hr. apply reason_unknown; [done..|].
    intros c Hin (t & Hf).
    assert (fm !! apiv1.Name c = None) as Hn by (by rewrite Hr).
    apply failMessages_None in Hn as [_ Hn]. eapply Hn; [done..|by exists t].
Qed.

(** C8, as amended.  Two invocations of [inferFailedReason] on the same
    pod return the same phase and the same daemon flag; they return the
    same message too, unless two sidecars with different names failed and
    nothing of higher precedence did, in which case each invocation
    returns the message of one of the failed sidecars. *)
Theorem inferFailedReason_repeatable seed1 seed2 pod :
  (inferFailedReason seed1 pod).1 = (inferFailedReason seed2 pod).1
  ∧ ((inferFailedReason seed1 pod).2 = (inferFailedReason seed2 pod).2
     ∨ severalSidecarsFailed pod).
Proof.
  unfold inferFailedReason.
  case_bool_decide as Hm; [by split; [|left]|].
  assert (apiv1.Status_Message pod = "") as Hm'.
  { by destruct (decide (apiv1.Status_Message pod = "")). }
  set (a := mapIndex _ _).
  destruct (scanInitContainers a _) as [r|] eqn:Hi; [by split; [|left]|].
  apply scanInitContainers_None in Hi.
  set (fm := foldl _ _ _).
  destruct (fm !! common.MainContainerName) as [v|] eqn:Hmain; [by split; [|left]|].
  destruct (fm !! common.WaitContainerName) as [v|] eqn:Hwait; [by split; [|left]|].
  apply failMessages_None in Hmain as [_ Hmain].
  apply failMessages_None in Hwait as [_ Hwait].
  destruct (rangeFirst seed1 fm) as [v1|] eqn:Hr1;
    destruct (rangeFirst seed2 fm) as [v2|] eqn:Hr2; simpl.
  - split; [done|]. destruct (decide (v1 = v2)) as [->|Hne]; [by left | right].
    apply rangeFirst_Some in Hr1 as [k1 Hk1]. apply rangeFirst_Some in Hr2 as [k2 Hk2].
    assert (k1 ≠ k2) as Hk by (intros ->; congruence).
    apply failMessages_Some in Hk1 as [?|(c1 & t1 & Hin1 & Hn1 & Hf1 & _)]; [done|].
    apply failMessages_Some in Hk2 as [?|(c2 & t2 & Hin2 & Hn2 & Hf2 & _)]; [done|].
    split_and!; [done..|]. exists c1, c2.
    split_and!; [done|done|by exists t1|by exists t2|congruence].
  - apply rangeFirst_None in Hr2. apply rangeFirst_Some in Hr1 as [k Hk].
    by rewrite Hr2 in Hk.
  - apply rangeFirst_None in Hr1. apply rangeFirst_Some in Hr2 as [k Hk].
    by rewrite Hr1 in Hk.
  - by split; [|left].
Qed.

(** ** handlePodUpdate *)

Lemma reconcileNode_writes amb pod wfc c :
  match reconcileNode amb pod wfc c with
  | inl o => controller o = wfc ∧ cluster o = c ∧ Forall isWorkflowWrite (writes o)
  | inr (_, o) => controller o = wfc ∧ Forall isWorkflowWrite (writes o)
  end.
Proof.
  assert (∀ namespace wf, Forall isWorkflowWrite [WorkflowWrite namespace wf]) as Hw.
  { intros. apply Forall_singleton. by eexists _, _. }
  unfold reconcileNode.
  repeat first [ case_bool_decide | case_match ]; simplify_eq/=; auto.
Qed.

Lemma handlePodUpdate_cache_hit amb pod wfc c :
  gocache.Get (now amb) (completedPodCache wfc) (apiv1.ObjectMeta_Name pod) = true →
  handlePodUpdate amb pod wfc c = {| controller := wfc; cluster := c; writes := [] |}.
Proof. intros Hhit. unfold handlePodUpdate, reconcileNode. by rewrite Hhit. Qed.

Lemma handlePodUpdate_completed_label amb pod wfc c :
  apiv1.Labels pod !! common.LabelKeyCompleted = Some "true" →
  handlePodUpdate amb pod wfc c = {| controller := wfc; cluster := c; writes := [] |}.
Proof.
  intros Hl. unfold handlePodUpdate, reconcileNode, mapIndex. rewrite Hl.
  by destruct (gocache.Get _ _ _).
Qed.

(** C4.  When the pod carries the label completed=true or the cache has
    its name, [handlePodUpdate] returns with the controller (and so the
    cache) and the cluster as they were and without having issued a write:
    no workflow write, no pod label write, no cache write. *)
Theorem handlePodUpdate_completed_noop amb pod wfc c :
  gocache.Get (now amb) (completedPodCache wfc) (apiv1.ObjectMeta_Name pod) = true
  ∨ apiv1.Labels pod !! common.LabelKeyCompleted = Some "true" →
  handlePodUpdate amb pod wfc c = {| controller := wfc; cluster := c; writes := [] |}.
Proof.
  intros [Hhit|Hl];
    [by apply handlePodUpdate_cache_hit | by apply handlePodUpdate_completed_label].
Qed.

Lemma workflow_writes_only ws w :
  Forall isWorkflowWrite ws → w ∈ ws → isWorkflowWrite w.
Proof. intros Hws Hin. by eapply Forall_forall in Hws. Qed.

(** C5.  When [handlePodUpdate] reaches its final block with the node
    [node], it issues the label write completed=true for the pod exactly
    when the node is terminal and not daemoned; it writes the pod's name
    into the completed-pod cache exactly when, moreover, that labelling
    succeeds, and otherwise leaves the controller as it was; and for a
    terminal daemoned node it does nothing more at all. *)
Theorem handlePodUpdate_labelling amb pod wfc c node o :
  reconcileNode amb pod wfc c = inr (node, o) →
  let o' := handlePodUpdate amb pod wfc c in
  let name := apiv1.ObjectMeta_Name pod in
  let namespace := apiv1.ObjectMeta_Namespace pod in
  let labelled := AddPodLabel (cluster o) name namespace common.LabelKeyCompleted "true" in
  (PodLabelWrite name namespace common.LabelKeyCompleted "true" ∈ writes o'
     ↔ wfv1.Completed node = true ∧ wfv1.IsDaemoned node = false)
  ∧ (CacheWrite name ∈ writes o'
     ↔ wfv1.Completed node = true ∧ wfv1.IsDaemoned node = false ∧ is_Some labelled)
  ∧ (CacheWrite name ∈ writes o' →
     controller o' =
       setCache wfc (gocache.SetDefault (now amb) (completedPodCache wfc) name)
     ∧ Some (cluster o') = labelled)
  ∧ (CacheWrite name ∉ writes o' → controller o' = wfc ∧ cluster o' = cluster o)
  ∧ (wfv1.Completed node = true → wfv1.IsDaemoned node = true → o' = o).
Proof.
  intros Hrec. cbv zeta. unfold handlePodUpdate. rewrite Hrec.
  pose proof (reconcileNode_writes amb pod wfc c) as Hw. rewrite Hrec in Hw.
  destruct Hw as [Hc Hw].
  assert (∀ n ns k v, PodLabelWrite n ns k v ∉ writes o) as Hnl.
  { intros n ns k v Hin. by destruct (workflow_writes_only _ _ Hw Hin) as (? & ? & ?). }
  assert (∀ n, CacheWrite n ∉ writes o) as Hnc.
  { intros n Hin. by destruct (workflow_writes_only _ _ Hw Hin) as (? & ? & ?). }
  assert (∀ ws w, w ∈ (writes o ++ w :: ws)%list) as Hhere.
  { intros ws w. apply elem_of_app. right. apply list_elem_of_here. }
  unfold labelCompleted.
  destruct (wfv1.Completed node), (wfv1.IsDaemoned node); simpl;
    try (split_and!;
         [ split; [by intros ?%Hnl | by intros [? ?]]
         | split; [by intros ?%Hnc | by intros (? & ? & _)]
         | by intros ?%Hnc | done | done ]).
  destruct (AddPodLabel _ _ _ _ _) as [c'|] eqn:Hl; simpl; rewrite ?Hc.
  - assert (CacheWrite (apiv1.ObjectMeta_Name pod)
            ∈ (writes o ++ [PodLabelWrite (apiv1.ObjectMeta_Name pod)
                              (apiv1.ObjectMeta_Namespace pod)
                              common.LabelKeyCompleted "true";
                            CacheWrite (apiv1.ObjectMeta_Name pod)])%list) as Hin.
    { apply elem_of_app. right. apply list_elem_of_further, list_elem_of_here. }
    split_and!; [by split | split; [by eauto | done] | done | done | done].
  - assert (CacheWrite (apiv1.ObjectMeta_Name pod)
            ∉ (writes o ++ [PodLabelWrite (apiv1.ObjectMeta_Name pod)
                              (apiv1.ObjectMeta_Namespace pod)
                              common.LabelKeyCompleted "true"])%list) as Hnin.
    { intros [?%Hnc|Hin]%elem_of_app; [done|].
      apply elem_of_cons in Hin as [?|?%elem_of_nil]; done. }
    split_and!; [by split | split; [done | by intros (_ & _ & [? ?])] | done | done | done].
Qed.

(** ** updateConfig *)

(** C6.  A config map whose payload is absent, does not parse, or parses
    to a configuration without executor image makes [updateConfig] return
    an error and leave the controller, and so its stored configuration, as
    it was; a payload that parses to a configuration with an executor
    image makes it return no error and store that configuration. *)
Theorem updateConfig_rejects_or_replaces wfc cm :
  let payload := apiv1.Data cm !! common.WorkflowControllerConfigMapKey in
  ((payload = None
    ∨ (∃ s, payload = Some s ∧ yaml_Unmarshal_Config s = None)
    ∨ (∃ s config, payload = Some s ∧ yaml_Unmarshal_Config s = Some config
                   ∧ ExecutorImage config = "")) →
   is_Some (updateConfig wfc cm).1 ∧ (updateConfig wfc cm).2 = wfc)
  ∧ (∀ s config,
       payload = Some s → yaml_Unmarshal_Config s = Some config →
       ExecutorImage config ≠ "" →
       (updateConfig wfc cm).1 = None
       ∧ Config (updateConfig wfc cm).2 = config
       ∧ completedPodCache (updateConfig wfc cm).2 = completedPodCache wfc).
Proof.
  cbv zeta. unfold updateConfig. split.
  - intros [->|[(s & -> & ->)|(s & config & -> & -> & ->)]]; simpl; eauto.
  - intros s config -> -> Hne. by rewrite bool_decide_eq_false_2.
Qed.


(** ** Daemon pods *)

Lemma forallb_Ready ctrs :
  forallb apiv1.Ready ctrs = true ↔ ∀ ctr, ctr ∈ ctrs → apiv1.Ready ctr = true.
Proof.
  rewrite forallb_forall. split; intros Hall ctr Hin; apply Hall;
    by apply list_elem_of_In.
Qed.

(** The switch for a running pod whose template is a daemon template. *)
Lemma podPhaseSwitch_daemon seed pod tmplStr tmpl :
  apiv1.Status_Phase pod = apiv1.PodRunning →
  apiv1.Annotations pod !! common.AnnotationKeyTemplate = Some tmplStr →
  json_Unmarshal_Template tmplStr = Some tmpl →
  wfv1.Daemon tmpl = Some true →
  podPhaseSwitch seed pod
  = if forallb apiv1.Ready (apiv1.Status_ContainerStatuses pod)
    then Some (wfv1.NodeSucceeded, Some true, "") else None.
Proof. intros Hp Ha Ht Hd. unfold podPhaseSwitch. by rewrite Hp, Ha, Ht, Hd. Qed.

(** The switch reads the init container statuses of a failed pod only. *)
Lemma podPhaseSwitch_running_init seed pod init :
  apiv1.Status_Phase pod = apiv1.PodRunning →
  podPhaseSwitch seed (withInitContainerStatuses pod init) = podPhaseSwitch seed pod.
Proof. intros Hp. unfold podPhaseSwitch. simpl. by rewrite Hp. Qed.

(** The daemon flag after the first two steps, for the daemon status true. *)
Lemma updateDaemoned_marks pod newPhase node :
  wfv1.Daemoned node ≠ Some false →
  wfv1.Daemoned (updateDaemoned pod (Some true) (updatePhase newPhase (false, node))).2
  = Some true.
Proof.
  intros Hd.
  destruct (updatePhase_frame newPhase (false, node)) as (Hd1 & _).
  destruct (updatePhase newPhase (false, node)) as [u n]. simpl in Hd1.
  unfold updateDaemoned. simpl. rewrite Hd1.
  destruct (wfv1.Daemoned node) as [[|]|] eqn:Hn; [|done|].
  - rewrite bool_decide_eq_false_2 by (by intros [_ ?]). simpl. by rewrite Hd1.
  - rewrite bool_decide_eq_true_2 by done. simpl. by case_bool_decide.
Qed.

(** With the daemon status true, [applyUpdates] leaves a node whose flag
    is not an explicit false daemoned, and the step that sets finishedAt
    then does not go through the container statuses: the call does not
    read [initContainerStatuses]. *)
Lemma applyUpdates_daemon_init now pod init node newPhase message :
  wfv1.Daemoned node ≠ Some false →
  applyUpdates now (withInitContainerStatuses pod init) node newPhase (Some true) message
  = applyUpdates now pod node newPhase (Some true) message.
Proof.
  intros Hd. unfold applyUpdates.
  change (updateDaemoned (withInitContainerStatuses pod init))
    with (updateDaemoned pod).
  change (updateOutputs (withInitContainerStatuses pod init))
    with (updateOutputs pod).
  pose proof (updateDaemoned_marks pod newPhase node Hd) as Hm.
  set (st2 := updateDaemoned _ _ _) in *.
  destruct (updateMessage_frame message (updateOutputs pod st2)) as (_ & _ & Hd4 & _).
  destruct (updateOutputs_frame pod st2) as (Hd3 & _).
  rewrite Hd3, Hm in Hd4. clear Hd3.
  destruct (updateMessage message (updateOutputs pod st2)) as [u n]. simpl in Hd4.
  unfold updateFinishedAt, wfv1.IsDaemoned. by rewrite Hd4.
Qed.

(** What [applyUpdates] makes of the daemon status true for a node that is
    not terminal. *)
Lemma applyUpdates_daemon_marks now pod node :
  wfv1.Completed node = false →
  wfv1.Daemoned node ≠ Some false →
  ¬ outputsUndecodable pod node →
  let r := applyUpdates now pod node wfv1.NodeSucceeded (Some true) "" in
  r.1 = true ∧ wfv1.Phase r.2 = wfv1.NodeSucceeded ∧ wfv1.Daemoned r.2 = Some true.
Proof.
  intros Hc Hd Ho. cbv zeta.
  pose proof (updateDaemoned_marks pod wfv1.NodeSucceeded node Hd) as Hm.
  unfold applyUpdates.
  assert (updatePhase wfv1.NodeSucceeded (false, node)
          = (true, setPhase node wfv1.NodeSucceeded)) as Hst1.
  { unfold updatePhase. rewrite Hc.
    by rewrite bool_decide_eq_true_2
      by (intros Heq; unfold wfv1.Completed in Hc; by rewrite Heq in Hc). }
  rewrite Hst1 in Hm |- *.
  set (st2 := updateDaemoned _ _ _) in *.
  assert (st2.1 = true) as Hu2.
  { subst st2. unfold updateDaemoned. simpl. by destruct (_ || _). }
  destruct (updateDaemoned_frame pod (Some true) (true, setPhase node wfv1.NodeSucceeded))
    as (Hp2 & Ho2 & _).
  fold st2 in Hp2, Ho2. simpl in Hp2, Ho2.
  destruct (updateFinishedAt_frame now pod (updateMessage "" (updateOutputs pod st2)))
    as (-> & -> & _).
  destruct (updateMessage_frame "" (updateOutputs pod st2)) as (Hu4 & -> & -> & _).
  destruct (updateOutputs_frame pod st2) as (-> & _).
  destruct (updateOutputs_phase pod st2) as [_ ->].
  2:{ intros (s & Hs1 & Hs2 & Hs3). apply Ho. exists s. by rewrite <- Ho2. }
  split_and!; [|done..].
  assert ((updateOutputs pod st2).1 = true) as Hu3.
  { destruct st2 as [u n]. simpl in Hu2. subst u. unfold updateOutputs.
    by repeat case_match. }
  rewrite <- Hu4 in Hu3. revert Hu3.
  generalize (updateMessage "" (updateOutputs pod st2)). intros [u4 n4]. simpl.
  intros ->. unfold updateFinishedAt.
  by destruct (wfv1.Completed n4 && time.IsZero (wfv1.FinishedAt n4)).
Qed.

(** The call that gets to the node, finds an update needed and leaves the
    node terminal and daemoned: one workflow write, and no label. *)
Lemma handlePodUpdate_daemoned_written amb pod wfc c workflowName wf node
    newPhase newDaemonStatus message node' :
  gocache.Get (now amb) (completedPodCache wfc) (apiv1.ObjectMeta_Name pod) = false →
  mapIndex (apiv1.Labels pod) common.LabelKeyCompleted ≠ "true" →
  apiv1.Labels pod !! common.LabelKeyWorkflow = Some workflowName →
  podPhaseSwitch (mapSeed amb) pod = Some (newPhase, newDaemonStatus, message) →
  GetWorkflow c (apiv1.ObjectMeta_Namespace pod) workflowName = Some wf →
  wfv1.Status_Nodes wf !! apiv1.ObjectMeta_Name pod = Some node →
  applyUpdates (now amb) pod node newPhase newDaemonStatus message = (true, node') →
  wfv1.Completed node' = true →
  wfv1.IsDaemoned node' = true →
  let wf' := setNode wf (apiv1.ObjectMeta_Name pod) node' in
  handlePodUpdate amb pod wfc c
  = {| controller := wfc;
       cluster := default c (UpdateWorkflow c (apiv1.ObjectMeta_Namespace pod) wf');
       writes := [WorkflowWrite (apiv1.ObjectMeta_Namespace pod) wf'] |}.
Proof.
  intros Hget Hlab Hl Hs Hg Hn Hr Hc Hd. cbv zeta.
  unfold handlePodUpdate, reconcileNode.
  rewrite Hget, (bool_decide_eq_false_2 _ Hlab), Hl, Hs, Hg, Hn, Hr. simpl.
  destruct (UpdateWorkflow _ _ _) as [c'|]; [|done].
  unfold labelCompleted. by rewrite Hc, Hd.
Qed.

(** C9, as amended.  For a running pod whose template annotation decodes to
    a daemon template, readiness is decided from
    [pod.status.containerStatuses] alone.  The switch of [handlePodUpdate]
    gives the same result whatever the init container statuses are.  When
    some container status is not ready, [handlePodUpdate] returns with
    nothing written, whatever the init container statuses are.  When every
    container status is ready, and so when the list is empty, and the
    observation gets to the node (the pod's name is not in the completed-pod
    cache, the pod has no completed=true label, it names its workflow, and
    the workflow and the node are found), then a node that is not terminal,
    whose daemoned field is not an explicit false, and for which the pod
    carries no undecodable outputs annotation, is written Succeeded with
    daemon status true: [handlePodUpdate] issues exactly one write, of the
    fetched workflow with this node Succeeded and daemoned and every other
    node as it was; it does not label the pod and leaves the controller
    alone; and the outcome is the same whatever the init container statuses
    are. *)
Theorem daemon_readiness amb pod wfc c tmplStr tmpl :
  apiv1.Status_Phase pod = apiv1.PodRunning →
  apiv1.Annotations pod !! common.AnnotationKeyTemplate = Some tmplStr →
  json_Unmarshal_Template tmplStr = Some tmpl →
  wfv1.Daemon tmpl = Some true →
  let name := apiv1.ObjectMeta_Name pod in
  let namespace := apiv1.ObjectMeta_Namespace pod in
  let unchanged := {| controller := wfc; cluster := c; writes := [] |} in
  let marked :=
    ∀ workflowName wf node,
      gocache.Get (now amb) (completedPodCache wfc) name = false →
      mapIndex (apiv1.Labels pod) common.LabelKeyCompleted ≠ "true" →
      apiv1.Labels pod !! common.LabelKeyWorkflow = Some workflowName →
      GetWorkflow c namespace workflowName = Some wf →
      wfv1.Status_Nodes wf !! name = Some node →
      wfv1.Completed node = false →
      wfv1.Daemoned node ≠ Some false →
      ¬ outputsUndecodable pod node →
      ∃ wf' node',
        handlePodUpdate amb pod wfc c
        = {| controller := wfc;
             cluster := default c (UpdateWorkflow c namespace wf');
             writes := [WorkflowWrite namespace wf'] |}
        ∧ wfv1.ObjectMeta_Name wf' = wfv1.ObjectMeta_Name wf
        ∧ wfv1.Status_Nodes wf' !! name = Some node'
        ∧ (∀ k, k ≠ name → wfv1.Status_Nodes wf' !! k = wfv1.Status_Nodes wf !! k)
        ∧ wfv1.Phase node' = wfv1.NodeSucceeded
        ∧ wfv1.Daemoned node' = Some true
        ∧ (∀ init, handlePodUpdate amb (withInitContainerStatuses pod init) wfc c
                   = handlePodUpdate amb pod wfc c) in
  (∀ init, podPhaseSwitch (mapSeed amb) (withInitContainerStatuses pod init)
           = podPhaseSwitch (mapSeed amb) pod)
  ∧ ((∃ ctr, ctr ∈ apiv1.Status_ContainerStatuses pod ∧ apiv1.Ready ctr = false) →
     handlePodUpdate amb pod wfc c = unchanged
     ∧ ∀ init, handlePodUpdate amb (withInitContainerStatuses pod init) wfc c = unchanged)
  ∧ ((∀ ctr, ctr ∈ apiv1.Status_ContainerStatuses pod → apiv1.Ready ctr = true) → marked)
  ∧ (apiv1.Status_ContainerStatuses pod = [] → marked).
Proof.
  intros Hp Ha Ht Hd name namespace unchanged.
  pose proof (podPhaseSwitch_daemon (mapSeed amb) pod tmplStr tmpl Hp Ha Ht Hd) as Hs.
  assert (∀ init, podPhaseSwitch (mapSeed amb) (withInitContainerStatuses pod init)
                  = podPhaseSwitch (mapSeed amb) pod) as Hinit.
  { intros init. by apply podPhaseSwitch_running_init. }
  assert (∀ pod', podPhaseSwitch (mapSeed amb) pod' = None →
                  handlePodUpdate amb pod' wfc c = unchanged) as Hnone.
  { intros pod' Hs'. unfold handlePodUpdate, reconcileNode. rewrite Hs'.
    destruct (gocache.Get _ _ _); [done|]. destruct (bool_decide _); [done|].
    by destruct (apiv1.Labels pod' !! _). }
  intros marked.
  assert ((∀ ctr, ctr ∈ apiv1.Status_ContainerStatuses pod → apiv1.Ready ctr = true) →
          marked) as Hready.
  { intros Hall%forallb_Ready. rewrite Hall in Hs.
    intros workflowName wf node Hget Hlab Hl Hg Hn Hc Hnf Ho.
    destruct (applyUpdates_daemon_marks (now amb) pod node Hc Hnf Ho) as (Hu & Hph & Hda).
    destruct (applyUpdates _ _ _ _ _ _) as [u node'] eqn:Hr. simpl in Hu, Hph, Hda.
    subst u.
    assert (wfv1.Completed node' = true) as Hc' by (unfold wfv1.Completed; by rewrite Hph).
    assert (wfv1.IsDaemoned node' = true) as Hd' by (unfold wfv1.IsDaemoned; by rewrite Hda).
    pose proof (handlePodUpdate_daemoned_written amb pod wfc c workflowName wf node
                  _ _ _ node' Hget Hlab Hl Hs Hg Hn Hr Hc' Hd') as Hh.
    exists (setNode wf name node'), node'. split_and!; try done.
    - apply lookup_insert_eq.
    - intros k Hk. by apply lookup_insert_ne.
    - intros init. rewrite Hh.
      apply (handlePodUpdate_daemoned_written amb (withInitContainerStatuses pod init)
               wfc c workflowName wf node wfv1.NodeSucceeded (Some true) "" node');
        try done.
      + by rewrite Hinit.
      + by rewrite applyUpdates_daemon_init. }
  split_and!; [done| |done|].
  - intros (ctr & Hin & Hr).
    assert (podPhaseSwitch (mapSeed amb) pod = None) as Hs'.
    { rewrite Hs. destruct (forallb _ _) eqn:Hall; [|done].
      rewrite forallb_Ready in Hall. apply Hall in Hin. congruence. }
    split; [by apply Hnone|]. intros init. apply Hnone. by rewrite Hinit.
  - intros Hnil. apply Hready. rewrite Hnil. by intros ctr ?%elem_of_nil.
Qed.

(** ** The completed-pod cache *)

Lemma Get_SetDefault now now' cache name :
  gocache.defaultExpiration cache = 1 * time.Hour →
  (now' ≤ now + 1 * time.Hour)%Z →
  gocache.Get now' (gocache.SetDefault now cache name) name = true.
Proof.
  intros Hd Hle. unfold gocache.Get, gocache.SetDefault. simpl.
  rewrite lookup_insert_eq, Hd.
  rewrite (bool_decide_eq_true_2 (0 < 1 * time.Hour)%Z) by done.
  case_bool_decide; [|done].
  rewrite bool_decide_eq_false_2; [done|]. unfold gocache.UnixNano. lia.
Qed.

Lemma handlePodUpdate_cache_write amb pod wfc c :
  CacheWrite (apiv1.ObjectMeta_Name pod) ∈ writes (handlePodUpdate amb pod wfc c) →
  controller (handlePodUpdate amb pod wfc c)
  = setCache wfc (gocache.SetDefault (now amb) (completedPodCache wfc)
                    (apiv1.ObjectMeta_Name pod)).
Proof.
  unfold handlePodUpdate.
  pose proof (reconcileNode_writes amb pod wfc c) as Hws.
  destruct (reconcileNode amb pod wfc c) as [o|[node o]].
  - destruct Hws as (_ & _ & Hws). intros Hw.
    by destruct (workflow_writes_only _ _ Hws Hw) as (? & ? & ?).
  - destruct Hws as [Hc Hws].
    assert (CacheWrite (apiv1.ObjectMeta_Name pod) ∉ writes o) as Hnc.
    { intros Hin. by destruct (workflow_writes_only _ _ Hws Hin) as (? & ? & ?). }
    unfold labelCompleted.
    destruct (wfv1.Completed node), (wfv1.IsDaemoned node); simpl; try done.
    destruct (AddPodLabel _ _ _ _ _); simpl; [by rewrite Hc|].
    intros [?|Hin]%elem_of_app; [done|].
    apply elem_of_cons in Hin as [?|?%elem_of_nil]; done.
Qed.

(** C10, as amended.  The completed-pod cache is keyed by the pod's name
    alone.  After [handlePodUpdate] has written a pod's name into it, an
    observation of a pod of that name, in whatever namespace and on
    whatever cluster state, made no later than one hour after (the life
    time of the cache entry), returns at the cache check: the controller
    and the cluster stay as they are and no write is issued. *)
Theorem completed_cache_ignores_namespace amb pod wfc c amb' pod' c' :
  let o := handlePodUpdate amb pod wfc c in
  gocache.defaultExpiration (completedPodCache wfc) = 1 * time.Hour →
  CacheWrite (apiv1.ObjectMeta_Name pod) ∈ writes o →
  apiv1.ObjectMeta_Name pod' = apiv1.ObjectMeta_Name pod →
  (now amb' ≤ now amb + 1 * time.Hour)%Z →
  handlePodUpdate amb' pod' (controller o) c'
  = {| controller := controller o; cluster := c'; writes := [] |}.
Proof.
  intros o Hd Hw Hname Hle. apply handlePodUpdate_cache_hit.
  subst o. rewrite (handlePodUpdate_cache_write _ _ _ _ Hw).
  simpl. rewrite Hname. by apply Get_SetDefault.
Qed.


(** ** applyUpdates: what a call settles *)

Lemma updatePhase_settled newPhase u node :
  wfv1.Phase node = newPhase ∨ wfv1.Completed node = true →
  updatePhase newPhase (u, node) = (u, node).
Proof.
  intros [Hp|Hc]; unfold updatePhase.
  - by rewrite bool_decide_eq_false_2 by (by intros ?).
  - rewrite Hc. by case_bool_decide.
Qed.

Lemma updateOutputs_settled pod u node :
  apiv1.Annotations pod !! common.AnnotationKeyOutputs = None
  ∨ is_Some (wfv1.Outputs_ node) →
  updateOutputs pod (u, node) = (u, node).
Proof.
  intros [Ha|[o Ho]]; unfold updateOutputs; [by rewrite Ha|].
  rewrite Ho. by destruct (apiv1.Annotations pod !! common.AnnotationKeyOutputs).
Qed.

Lemma updateMessage_settled message u node :
  message = "" ∨ wfv1.Message node = message →
  updateMessage message (u, node) = (u, node).
Proof.
  intros [->|Hm]; unfold updateMessage; [done|].
  rewrite (bool_decide_eq_false_2 (wfv1.Message node ≠ message)) by (by intros ?).
  by rewrite andb_false_r.
Qed.

Lemma updateFinishedAt_settled now pod u node :
  wfv1.Completed node = false ∨ wfv1.FinishedAt node ≠ 0 →
  updateFinishedAt now pod (u, node) = (u, node).
Proof.
  intros [Hc|Hf]; unfold updateFinishedAt; [by rewrite Hc|].
  unfold time.IsZero. rewrite (bool_decide_eq_false_2 _ Hf). by rewrite andb_false_r.
Qed.

Lemma updateDaemoned_settled pod newDaemonStatus u node :
  match newDaemonStatus with
  | None => True
  | Some true => is_Some (wfv1.Daemoned node)
  | Some false => wfv1.Daemoned node = None
  end →
  updateDaemoned pod newDaemonStatus (u, node) = (u, node).
Proof.
  unfold updateDaemoned. destruct newDaemonStatus as [[|]|]; simpl; [| |done].
  - intros [d Hd]. rewrite Hd. simpl. by repeat case_bool_decide; naive_solver.
  - intros Hd. rewrite Hd. simpl. by repeat case_bool_decide; naive_solver.
Qed.

Lemma updateDaemoned_result pod newDaemonStatus st :
  match newDaemonStatus with
  | None => True
  | Some true => is_Some (wfv1.Daemoned (updateDaemoned pod newDaemonStatus st).2)
  | Some false => wfv1.Daemoned (updateDaemoned pod newDaemonStatus st).2 = None
  end.
Proof.
  destruct st as [u n]. unfold updateDaemoned.
  destruct newDaemonStatus as [[|]|]; simpl; [| |done].
  - destruct (wfv1.Daemoned n) eqn:Hd; simpl;
      repeat case_bool_decide; simpl; rewrite ?Hd; naive_solver.
  - destruct (wfv1.Daemoned n) eqn:Hd; simpl;
      repeat case_bool_decide; simpl; rewrite ?Hd; naive_solver.
Qed.

Lemma updatePhase_result newPhase st :
  wfv1.Phase (updatePhase newPhase st).2 = newPhase
  ∨ wfv1.Completed (updatePhase newPhase st).2 = true.
Proof.
  destruct st as [u n]. unfold updatePhase.
  case_bool_decide as Hp; simpl.
  - destruct (wfv1.Completed n) eqn:Hc; simpl; auto.
  - left. by destruct (decide (wfv1.Phase n = newPhase)).
Qed.

Lemma updateOutputs_result pod st :
  let n := (updateOutputs pod st).2 in
  (wfv1.Phase n = wfv1.Phase st.2 ∨ wfv1.Phase n = wfv1.NodeError)
  ∧ (wfv1.Outputs_ n = wfv1.Outputs_ st.2
     ∨ wfv1.Outputs_ st.2 = None
       ∧ ∃ outputStr outputs,
           apiv1.Annotations pod !! common.AnnotationKeyOutputs = Some outputStr
           ∧ json_Unmarshal_Outputs outputStr = Some outputs
           ∧ wfv1.Outputs_ n = Some outputs).
Proof.
  destruct st as [u n]. unfold updateOutputs. simpl.
  destruct (apiv1.Annotations pod !! common.AnnotationKeyOutputs) as [s|] eqn:Ha;
    [|by auto].
  destruct (wfv1.Outputs_ n) eqn:Ho; [by auto|].
  destruct (json_Unmarshal_Outputs s) eqn:Hd; simpl; [|by auto].
  split; [by left|]. right. split; [done|]. by eexists _, _.
Qed.

Lemma updateOutputs_decided pod st :
  ¬ outputsUndecodable pod st.2 →
  apiv1.Annotations pod !! common.AnnotationKeyOutputs = None
  ∨ is_Some (wfv1.Outputs_ (updateOutputs pod st).2).
Proof.
  destruct st as [u n]. unfold updateOutputs, outputsUndecodable. simpl. intros Hdec.
  destruct (apiv1.Annotations pod !! common.AnnotationKeyOutputs) as [s|] eqn:Ha;
    [right | by left].
  destruct (wfv1.Outputs_ n) as [o|] eqn:Ho; simpl; [by rewrite Ho; eauto|].
  destruct (json_Unmarshal_Outputs s) eqn:Hs; simpl; [by eauto|].
  destruct Hdec. by exists s.
Qed.

Lemma updateMessage_result message st :
  message = "" ∨ wfv1.Message (updateMessage message st).2 = message.
Proof.
  destruct st as [u n]. unfold updateMessage.
  destruct (decide (message = "")) as [->|Hne]; [by left | right].
  rewrite (bool_decide_eq_true_2 _ Hne). simpl. case_bool_decide as Hm; simpl; [done|].
  by destruct (decide (wfv1.Message n = message)).
Qed.

Lemma updateFinishedAt_result now pod st :
  now ≠ 0 →
  wfv1.Completed (updateFinishedAt now pod st).2 = true →
  wfv1.FinishedAt (updateFinishedAt now pod st).2 ≠ 0.
Proof.
  intros Hnow.
  destruct (updateFinishedAt_frame now pod st) as (Hp & _).
  unfold wfv1.Completed at 1. rewrite Hp. fold (wfv1.Completed st.2).
  destruct st as [u n]. simpl. intros Hc. unfold updateFinishedAt. rewrite Hc. simpl.
  unfold time.IsZero. case_bool_decide as Hz; simpl; [|done].
  repeat case_bool_decide; simpl; done.
Qed.

Lemma updateFinishedAt_reported now pod st :
  st.1 = true → (updateFinishedAt now pod st).1 = true.
Proof.
  destruct st as [u n]. simpl. intros ->. unfold updateFinishedAt.
  by destruct (wfv1.Completed n && time.IsZero (wfv1.FinishedAt n)).
Qed.


(** A second call on the node a first call left finds nothing to do. *)
Lemma applyUpdates_settles now now' pod node newPhase newDaemonStatus message :
  now ≠ 0 →
  ¬ outputsUndecodable pod node →
  applyUpdates now' pod (applyUpdates now pod node newPhase newDaemonStatus message).2
    newPhase newDaemonStatus message
  = (false, (applyUpdates now pod node newPhase newDaemonStatus message).2).
Proof.
  intros Hnow Hdec.
  pose (st1 := updatePhase newPhase (false, node)).
  pose (st2 := updateDaemoned pod newDaemonStatus st1).
  pose (st3 := updateOutputs pod st2).
  pose (st4 := updateMessage message st3).
  pose (st5 := updateFinishedAt now pod st4).
  change (applyUpdates now pod node newPhase newDaemonStatus message) with st5.
  destruct (updateFinishedAt_frame now pod st4) as (Hp5 & Hd5 & _ & Ho5 & Hm5).
  destruct (updateMessage_frame message st3) as (_ & Hp4 & Hd4 & _ & Ho4 & _).
  destruct (updateOutputs_frame pod st2) as (Hd3 & _).
  destruct (updateDaemoned_frame pod newDaemonStatus st1) as (Hp2 & Ho2 & _).
  destruct (updatePhase_frame newPhase (false, node)) as (_ & _ & Ho1 & _).
  fold st1 in Ho1. fold st2 in Hp2, Ho2. fold st3 in Hd3. fold st4 in Hp4, Hd4, Ho4.
  fold st5 in Hp5, Hd5, Ho5, Hm5. simpl in Ho1.
  assert (wfv1.Phase st5.2 = newPhase ∨ wfv1.Completed st5.2 = true) as Hphase.
  { unfold wfv1.Completed. rewrite Hp5, Hp4.
    destruct (updateOutputs_result pod st2) as [[Hk|Hk] _]; fold st3 in Hk.
    - rewrite Hk, Hp2. apply updatePhase_result.
    - right. by rewrite Hk. }
  assert (match newDaemonStatus with
          | None => True
          | Some true => is_Some (wfv1.Daemoned st5.2)
          | Some false => wfv1.Daemoned st5.2 = None
          end) as Hdaemon.
  { rewrite Hd5, Hd4, Hd3. apply updateDaemoned_result. }
  assert (apiv1.Annotations pod !! common.AnnotationKeyOutputs = None
          ∨ is_Some (wfv1.Outputs_ st5.2)) as Hout.
  { rewrite Ho5, Ho4. apply updateOutputs_decided.
    intros (s & Ha & Ho & Hs). apply Hdec. exists s. by rewrite <- Ho1, <- Ho2. }
  assert (message = "" ∨ wfv1.Message st5.2 = message) as Hmsg.
  { rewrite Hm5. apply updateMessage_result. }
  assert (wfv1.Completed st5.2 = false ∨ wfv1.FinishedAt st5.2 ≠ 0) as Hfin.
  { destruct (wfv1.Completed st5.2) eqn:Hc; [right | by left].
    by apply updateFinishedAt_result. }
  clearbody st5. unfold applyUpdates.
  rewrite (updatePhase_settled _ _ _ Hphase).
  rewrite (updateDaemoned_settled _ _ _ _ Hdaemon).
  rewrite (updateOutputs_settled _ _ _ Hout).
  rewrite (updateMessage_settled _ _ _ Hmsg).
  by rewrite (updateFinishedAt_settled _ _ _ _ Hfin).
Qed.

(** X1.  [applyUpdates] is idempotent once the outputs decode: a second call
    with the same pod, phase, daemon status and message, on the node the
    first call left (at whatever later time), returns false and leaves the
    node as it is. *)
Theorem applyUpdates_idempotent now now' pod node newPhase newDaemonStatus message :
  now ≠ 0 →
  ¬ outputsUndecodable pod node →
  let node' := (applyUpdates now pod node newPhase newDaemonStatus message).2 in
  applyUpdates now' pod node' newPhase newDaemonStatus message = (false, node').
Proof. intros Hnow Hdec. by apply applyUpdates_settles. Qed.

(** X2.  A pod whose outputs annotation does not decode makes every call of
    [applyUpdates] report an update: the call returns true, the phase on
    return is Error, whatever the node and [newPhase] were, and the node is
    left in a state in which the next call does the same. *)
Theorem applyUpdates_undecodable_outputs now pod node newPhase newDaemonStatus message :
  outputsUndecodable pod node →
  let r := applyUpdates now pod node newPhase newDaemonStatus message in
  r.1 = true ∧ wfv1.Phase r.2 = wfv1.NodeError ∧ outputsUndecodable pod r.2.
Proof.
  intros (s & Ha & Ho & Hs). cbv zeta. unfold applyUpdates.
  set (st2 := updateDaemoned pod newDaemonStatus (updatePhase newPhase (false, node))).
  assert (wfv1.Outputs_ st2.2 = None) as Ho2.
  { subst st2.
    destruct (updateDaemoned_frame pod newDaemonStatus (updatePhase newPhase (false, node)))
      as (_ & -> & _).
    by destruct (updatePhase_frame newPhase (false, node)) as (_ & _ & -> & _). }
  assert (updateOutputs pod st2 = (true, setPhase st2.2 wfv1.NodeError)) as Hst3.
  { destruct st2 as [u2 n2]. simpl in Ho2. unfold updateOutputs. by rewrite Ha, Ho2, Hs. }
  rewrite Hst3.
  set (st4 := updateMessage message _).
  destruct (updateMessage_frame message (true, setPhase st2.2 wfv1.NodeError))
    as (Hu4 & Hp4 & _ & _ & Ho4 & _). fold st4 in Hu4, Hp4, Ho4. simpl in Hu4, Hp4, Ho4.
  destruct (updateFinishedAt_frame now pod st4) as (Hp5 & _ & _ & Ho5 & _).
  split_and!.
  - by apply updateFinishedAt_reported.
  - by rewrite Hp5, Hp4.
  - exists s. by rewrite Ho5, Ho4, Ho2.
Qed.

(** X3.  The outputs of a node are written at most once: after
    [applyUpdates] they are what they were, or they were unset and are now
    what the pod's outputs annotation decodes to. *)
Theorem applyUpdates_outputs_once now pod node newPhase newDaemonStatus message :
  let node' := (applyUpdates now pod node newPhase newDaemonStatus message).2 in
  wfv1.Outputs_ node' = wfv1.Outputs_ node
  ∨ wfv1.Outputs_ node = None
    ∧ ∃ outputStr outputs,
        apiv1.Annotations pod !! common.AnnotationKeyOutputs = Some outputStr
        ∧ json_Unmarshal_Outputs outputStr = Some outputs
        ∧ wfv1.Outputs_ node' = Some outputs.
Proof.
  cbv zeta. unfold applyUpdates.
  set (st2 := updateDaemoned pod newDaemonStatus (updatePhase newPhase (false, node))).
  assert (wfv1.Outputs_ st2.2 = wfv1.Outputs_ node) as Ho2.
  { subst st2.
    destruct (updateDaemoned_frame pod newDaemonStatus (updatePhase newPhase (false, node)))
      as (_ & -> & _).
    by destruct (updatePhase_frame newPhase (false, node)) as (_ & _ & -> & _). }
  destruct (updateFinishedAt_frame now pod (updateMessage message (updateOutputs pod st2)))
    as (_ & _ & _ & -> & _).
  destruct (updateMessage_frame message (updateOutputs pod st2)) as (_ & _ & _ & _ & -> & _).
  rewrite <- Ho2. apply updateOutputs_result.
Qed.

(** X4.  The phase [applyUpdates] leaves a node with that was not terminal
    on entry: [newPhase], unless the outputs annotation does not decode;
    and a node that was terminal on entry is terminal on return. *)
Theorem applyUpdates_phase now pod node newPhase newDaemonStatus message :
  let node' := (applyUpdates now pod node newPhase newDaemonStatus message).2 in
  (wfv1.Completed node = false → ¬ outputsUndecodable pod node →
   wfv1.Phase node' = newPhase)
  ∧ (wfv1.Completed node = true → wfv1.Completed node' = true).
Proof.
  cbv zeta. unfold applyUpdates.
  set (st1 := updatePhase newPhase (false, node)).
  set (st2 := updateDaemoned pod newDaemonStatus st1).
  destruct (updateFinishedAt_frame now pod (updateMessage message (updateOutputs pod st2)))
    as (Hp5 & _).
  destruct (updateMessage_frame message (updateOutputs pod st2)) as (_ & Hp4 & _).
  destruct (updateDaemoned_frame pod newDaemonStatus st1) as (Hp2 & Ho2 & _).
  destruct (updatePhase_frame newPhase (false, node)) as (_ & _ & Ho1 & _).
  fold st1 in Ho1. fold st2 in Hp2, Ho2. simpl in Ho1.
  assert (outputsUndecodable pod st2.2 ↔ outputsUndecodable pod node) as Hiff.
  { unfold outputsUndecodable. by rewrite Ho2, Ho1. }
  destruct (updateOutputs_phase pod st2) as [Herr Hkeep].
  split.
  - intros Hc Hdec. rewrite Hp5, Hp4, Hkeep, Hp2 by (by rewrite Hiff).
    subst st1. unfold updatePhase. rewrite Hc. case_bool_decide as Hne; simpl; [done|].
    by destruct (decide (wfv1.Phase node = newPhase)).
  - intros Hc. unfold wfv1.Completed. rewrite Hp5, Hp4.
    destruct (updateOutputs_result pod st2) as [[->| ->] _]; [|done].
    rewrite Hp2. subst st1. by rewrite (updatePhase_completed _ _ _ Hc).
Qed.

(** X5.  [applyUpdates] touches the pod IP only together with the daemon
    flag: without a daemon status it leaves both alone; a pod IP that
    changed is the pod's, and the flag changed with it; and a flag that
    changed is set or absent, never an explicit false. *)
Theorem applyUpdates_daemon_flag now pod node newPhase newDaemonStatus message :
  let node' := (applyUpdates now pod node newPhase newDaemonStatus message).2 in
  (newDaemonStatus = None →
   wfv1.Daemoned node' = wfv1.Daemoned node ∧ wfv1.PodIP node' = wfv1.PodIP node)
  ∧ (wfv1.PodIP node' ≠ wfv1.PodIP node →
     wfv1.Daemoned node' ≠ wfv1.Daemoned node
     ∧ wfv1.PodIP node' = apiv1.Status_PodIP pod)
  ∧ (wfv1.Daemoned node' ≠ wfv1.Daemoned node →
     wfv1.Daemoned node' ≠ Some false
     ∧ wfv1.IsDaemoned node' = bool_decide (newDaemonStatus = Some true)
     ∧ wfv1.PodIP node' = apiv1.Status_PodIP pod).
Proof.
  cbv zeta. unfold applyUpdates.
  set (st1 := updatePhase newPhase (false, node)).
  destruct (updateFinishedAt_frame now pod
              (updateMessage message (updateOutputs pod
                 (updateDaemoned pod newDaemonStatus st1)))) as (_ & Hd5 & Hi5 & _).
  destruct (updateMessage_frame message (updateOutputs pod
              (updateDaemoned pod newDaemonStatus st1))) as (_ & _ & Hd4 & Hi4 & _).
  destruct (updateOutputs_frame pod (updateDaemoned pod newDaemonStatus st1))
    as (Hd3 & Hi3 & _).
  destruct (updatePhase_frame newPhase (false, node)) as (Hd1 & Hi1 & _).
  fold st1 in Hd1, Hi1. simpl in Hd1, Hi1.
  unfold wfv1.IsDaemoned. rewrite Hd5, Hd4, Hd3, Hi5, Hi4, Hi3, <- Hd1, <- Hi1.
  clear. destruct st1 as [u n]. unfold updateDaemoned. simpl.
  destruct newDaemonStatus as [[|]|]; simpl; [| |done].
  - destruct (wfv1.Daemoned n) as [[|]|] eqn:Hd; simpl;
      repeat case_bool_decide; simpl; rewrite ?Hd; naive_solver.
  - destruct (wfv1.Daemoned n) as [[|]|] eqn:Hd; simpl;
      repeat case_bool_decide; simpl; rewrite ?Hd; naive_solver.
Qed.

(** X6.  A node that leaves [applyUpdates] terminal has a finishedAt: when
    the clock does not read the zero instant, finishedAt is not zero on
    return. *)
Theorem applyUpdates_terminal_finished now pod node newPhase newDaemonStatus message :
  now ≠ 0 →
  let node' := (applyUpdates now pod node newPhase newDaemonStatus message).2 in
  wfv1.Completed node' = true → wfv1.FinishedAt node' ≠ 0.
Proof. intros Hnow. cbv zeta. unfold applyUpdates. by apply updateFinishedAt_result. Qed.


(** ** inferFailedReason: the range of its results *)

Lemma appendFirstMessage_nonempty c base msgs :
  appendFirstMessage (String c base) msgs ≠ "".
Proof. induction msgs as [|msg msgs IH]; simpl; [done|]. by case_bool_decide. Qed.

Lemma failMessage_nonempty pod ctr t : failMessage pod ctr t ≠ "".
Proof.
  unfold failMessage, containerMessage.
  rewrite <- appendFirstMessage_suffixed. case_bool_decide.
  - apply appendFirstMessage_nonempty.
  - by case_bool_decide.
Qed.

(** X7.  Whatever the pod, [inferFailedReason] returns a terminal phase,
    Failed or Error, the daemon status false, and a message that is not
    empty. *)
Theorem inferFailedReason_range seed pod :
  let r := inferFailedReason seed pod in
  (r.1.1 = wfv1.NodeFailed ∨ r.1.1 = wfv1.NodeError)
  ∧ r.1.2 = Some false
  ∧ r.2 ≠ "".
Proof.
  cbv zeta. unfold inferFailedReason.
  case_bool_decide as Hm; [by auto|].
  set (a := mapIndex _ _).
  destruct (scanInitContainers a _) as [r|] eqn:Hi.
  { apply scanInitContainers_Some in Hi as (_ & _ & t & _ & _ & _ & _ & ->).
    cbn [fst snd]. split_and!; [by right | done | apply appendFirstMessage_nonempty]. }
  set (fm := foldl _ _ _).
  assert (∀ k v, fm !! k = Some v → v ≠ "") as Hfm.
  { intros k v Hk. apply failMessages_Some in Hk as [?|(c & t & _ & _ & _ & ->)]; [done|].
    apply failMessage_nonempty. }
  destruct (fm !! common.MainContainerName) as [v|] eqn:Hmain;
    [by split_and!; [left| |eapply Hfm]|].
  destruct (fm !! common.WaitContainerName) as [v|] eqn:Hwait;
    [by split_and!; [right| |eapply Hfm]|].
  destruct (rangeFirst seed fm) as [v|] eqn:Hr; [|by auto].
  apply rangeFirst_Some in Hr as [k Hk]. by split_and!; [left| |eapply Hfm].
Qed.

(** ** handlePodUpdate: every way through it *)

(** The ways through [reconcileNode]: a return before anything is written;
    or the node is found and [applyUpdates] reports nothing to write; or the
    workflow with the node put back is written, and the write fails or
    succeeds. *)
Lemma reconcileNode_cases amb pod wfc c :
  let unchanged := {| controller := wfc; cluster := c; writes := [] |} in
  let namespace := apiv1.ObjectMeta_Namespace pod in
  let name := apiv1.ObjectMeta_Name pod in
  reconcileNode amb pod wfc c = inl unchanged
  ∨ ∃ workflowName newPhase newDaemonStatus message wf node,
      apiv1.Labels pod !! common.LabelKeyWorkflow = Some workflowName
      ∧ podPhaseSwitch (mapSeed amb) pod = Some (newPhase, newDaemonStatus, message)
      ∧ GetWorkflow c namespace workflowName = Some wf
      ∧ wfv1.Status_Nodes wf !! name = Some node
      ∧ let r := applyUpdates (now amb) pod node newPhase newDaemonStatus message in
        let wf' := setNode wf name r.2 in
        (r.1 = false ∧ reconcileNode amb pod wfc c = inr (r.2, unchanged))
        ∨ (r.1 = true ∧ UpdateWorkflow c namespace wf' = None
           ∧ reconcileNode amb pod wfc c
             = inl {| controller := wfc; cluster := c;
                      writes := [WorkflowWrite namespace wf'] |})
        ∨ (r.1 = true
           ∧ ∃ c', UpdateWorkflow c namespace wf' = Some c'
                   ∧ reconcileNode amb pod wfc c
                     = inr (r.2, {| controller := wfc; cluster := c';
                                    writes := [WorkflowWrite namespace wf'] |})).
Proof.
  cbv zeta. unfold reconcileNode.
  destruct (gocache.Get _ _ _); [by left|].
  case_bool_decide; [by left|].
  destruct (apiv1.Labels pod !! common.LabelKeyWorkflow) as [workflowName|]; [|by left].
  destruct (podPhaseSwitch _ _) as [[[newPhase newDaemonStatus] message]|]; [|by left].
  destruct (GetWorkflow _ _ _) as [wf|] eqn:Hget; [|by left].
  destruct (wfv1.Status_Nodes wf !! _) as [node|] eqn:Hnode; [|by left].
  right. exists workflowName, newPhase, newDaemonStatus, message, wf, node.
  split_and!; [done..|].
  destruct (applyUpdates _ _ _ _ _ _) as [[|] node']; simpl.
  - destruct (UpdateWorkflow _ _ _) as [c'|]; [right; right | right; left]; eauto.
  - by left.
Qed.

(** What the final block appends to the writes. *)
Lemma labelCompleted_writes amb pod node o :
  let l := PodLabelWrite (apiv1.ObjectMeta_Name pod) (apiv1.ObjectMeta_Namespace pod)
             common.LabelKeyCompleted "true" in
  labelCompleted amb pod node o = o
  ∨ (writes (labelCompleted amb pod node o) = (writes o ++ [l])%list
     ∧ controller (labelCompleted amb pod node o) = controller o
     ∧ cluster (labelCompleted amb pod node o) = cluster o)
  ∨ (writes (labelCompleted amb pod node o)
       = (writes o ++ [l; CacheWrite (apiv1.ObjectMeta_Name pod)])%list
     ∧ controller (labelCompleted amb pod node o)
       = setCache (controller o)
           (gocache.SetDefault (now amb) (completedPodCache (controller o))
              (apiv1.ObjectMeta_Name pod))).
Proof.
  cbv zeta. unfold labelCompleted.
  destruct (wfv1.Completed node), (wfv1.IsDaemoned node); simpl; try by left.
  destruct (AddPodLabel _ _ _ _ _); simpl; auto.
Qed.

(** X8.  [handlePodUpdate] leaves the controller and the cluster as they are
    and issues no write for a pod without the workflow label, a pending pod,
    a running pod whose template annotation is missing, unreadable or not
    that of a daemon, a pod whose workflow the cluster does not return, and
    a pod the workflow has no node for. *)
Theorem handlePodUpdate_ignored amb pod wfc c :
  apiv1.Labels pod !! common.LabelKeyWorkflow = None
  ∨ apiv1.Status_Phase pod = apiv1.PodPending
  ∨ (apiv1.Status_Phase pod = apiv1.PodRunning
     ∧ ∀ tmplStr tmpl,
         apiv1.Annotations pod !! common.AnnotationKeyTemplate = Some tmplStr →
         json_Unmarshal_Template tmplStr = Some tmpl →
         wfv1.Daemon tmpl ≠ Some true)
  ∨ (∃ workflowName,
       apiv1.Labels pod !! common.LabelKeyWorkflow = Some workflowName
       ∧ (GetWorkflow c (apiv1.ObjectMeta_Namespace pod) workflowName = None
          ∨ ∃ wf, GetWorkflow c (apiv1.ObjectMeta_Namespace pod) workflowName = Some wf
                  ∧ wfv1.Status_Nodes wf !! apiv1.ObjectMeta_Name pod = None)) →
  handlePodUpdate amb pod wfc c = {| controller := wfc; cluster := c; writes := [] |}.
Proof.
  intros Hcase. unfold handlePodUpdate, reconcileNode.
  destruct (gocache.Get _ _ _); [done|].
  case_bool_decide; [done|].
  destruct (apiv1.Labels pod !! common.LabelKeyWorkflow) as [workflowName|] eqn:Hl;
    [|done].
  assert (podPhaseSwitch (mapSeed amb) pod = None
          ∨ GetWorkflow c (apiv1.ObjectMeta_Namespace pod) workflowName = None
          ∨ ∃ wf, GetWorkflow c (apiv1.ObjectMeta_Namespace pod) workflowName = Some wf
                  ∧ wfv1.Status_Nodes wf !! apiv1.ObjectMeta_Name pod = None) as Hwhy.
  { destruct Hcase as [?|[Hp|[[Hp Ht]|(w & [= <-] & Hw)]]]; [done| | |by right].
    - left. unfold podPhaseSwitch. by rewrite Hp.
    - left. unfold podPhaseSwitch. rewrite Hp.
      destruct (apiv1.Annotations pod !! common.AnnotationKeyTemplate) as [s|] eqn:Ha;
        [|done].
      destruct (json_Unmarshal_Template s) as [tmpl|] eqn:Hs; [|done].
      specialize (Ht s tmpl eq_refl Hs). by destruct (wfv1.Daemon tmpl) as [[|]|]. }
  destruct Hwhy as [->|[Hg|(wf & Hg & Hn)]]; [done| |].
  - destruct (podPhaseSwitch _ _) as [[[? ?] ?]|]; [|done]. by rewrite Hg.
  - destruct (podPhaseSwitch _ _) as [[[? ?] ?]|]; [|done]. by rewrite Hg, Hn.
Qed.

(** X9.  One observation issues at most one workflow write, in the pod's
    namespace and before anything else; then at most one label write, which
    sets completed=true on this pod; and a cache write only right after the
    label write, for this pod's name. *)
Theorem handlePodUpdate_writes amb pod wfc c :
  let l := PodLabelWrite (apiv1.ObjectMeta_Name pod) (apiv1.ObjectMeta_Namespace pod)
             common.LabelKeyCompleted "true" in
  ∃ ws ls,
    writes (handlePodUpdate amb pod wfc c) = (ws ++ ls)%list
    ∧ (ws = [] ∨ ∃ wf, ws = [WorkflowWrite (apiv1.ObjectMeta_Namespace pod) wf])
    ∧ (ls = [] ∨ ls = [l] ∨ ls = [l; CacheWrite (apiv1.ObjectMeta_Name pod)]).
Proof.
  cbv zeta. unfold handlePodUpdate.
  destruct (reconcileNode_cases amb pod wfc c)
    as [->|(wn & np & nds & msg & wf & node & _ & _ & _ & _ & Hr)].
  { exists [], []. auto. }
  cbv zeta in Hr.
  set (wf' := setNode wf _ _) in Hr.
  destruct Hr as [[_ ->]|[(_ & _ & ->)|(_ & c' & _ & ->)]].
  - exists []. simpl.
    destruct (labelCompleted_writes amb pod
                (applyUpdates (now amb) pod node np nds msg).2
                {| controller := wfc; cluster := c; writes := [] |})
      as [->|[(-> & _)|(-> & _)]]; simpl;
      eexists; (split; [reflexivity|]); split; eauto 10.
  - exists [WorkflowWrite (apiv1.ObjectMeta_Namespace pod) wf'], []. simpl. eauto 10.
  - exists [WorkflowWrite (apiv1.ObjectMeta_Namespace pod) wf'].
    destruct (labelCompleted_writes amb pod
                (applyUpdates (now amb) pod node np nds msg).2
                {| controller := wfc; cluster := c';
                   writes := [WorkflowWrite (apiv1.ObjectMeta_Namespace pod) wf'] |})
      as [->|[(-> & _)|(-> & _)]]; simpl;
      eexists; (split; [reflexivity|]); split; eauto 10.
Qed.


Lemma labelCompleted_no_workflow_write amb pod node o namespace wf :
  WorkflowWrite namespace wf ∈ writes (labelCompleted amb pod node o) →
  WorkflowWrite namespace wf ∈ writes o.
Proof.
  destruct (labelCompleted_writes amb pod node o) as [->|[(-> & _)|(-> & _)]]; [done| |];
    intros [?|Hin]%elem_of_app; try done;
    repeat (apply elem_of_cons in Hin as [?|Hin]; [done|]);
    by apply elem_of_nil in Hin.
Qed.

(** X10.  The workflow [handlePodUpdate] writes is the one it has just read
    from the pod's namespace under the name in the pod's workflow label,
    with the node of the pod's name replaced: the workflow keeps its name,
    had that node already, and every other node is as it was read. *)
Theorem handlePodUpdate_written_workflow amb pod wfc c namespace wf' :
  WorkflowWrite namespace wf' ∈ writes (handlePodUpdate amb pod wfc c) →
  namespace = apiv1.ObjectMeta_Namespace pod
  ∧ ∃ workflowName wf,
      apiv1.Labels pod !! common.LabelKeyWorkflow = Some workflowName
      ∧ GetWorkflow c (apiv1.ObjectMeta_Namespace pod) workflowName = Some wf
      ∧ wfv1.ObjectMeta_Name wf' = wfv1.ObjectMeta_Name wf
      ∧ is_Some (wfv1.Status_Nodes wf !! apiv1.ObjectMeta_Name pod)
      ∧ is_Some (wfv1.Status_Nodes wf' !! apiv1.ObjectMeta_Name pod)
      ∧ ∀ k, k ≠ apiv1.ObjectMeta_Name pod →
             wfv1.Status_Nodes wf' !! k = wfv1.Status_Nodes wf !! k.
Proof.
  unfold handlePodUpdate.
  destruct (reconcileNode_cases amb pod wfc c)
    as [->|(wn & np & nds & msg & wf & node & Hl & _ & Hg & Hn & Hr)].
  { by intros ?%elem_of_nil. }
  cbv zeta in Hr.
  assert (WorkflowWrite namespace wf'
          ∈ [WorkflowWrite (apiv1.ObjectMeta_Namespace pod)
               (setNode wf (apiv1.ObjectMeta_Name pod)
                  (applyUpdates (now amb) pod node np nds msg).2)] →
          namespace = apiv1.ObjectMeta_Namespace pod
          ∧ ∃ workflowName wf0,
              apiv1.Labels pod !! common.LabelKeyWorkflow = Some workflowName
              ∧ GetWorkflow c (apiv1.ObjectMeta_Namespace pod) workflowName = Some wf0
              ∧ wfv1.ObjectMeta_Name wf' = wfv1.ObjectMeta_Name wf0
              ∧ is_Some (wfv1.Status_Nodes wf0 !! apiv1.ObjectMeta_Name pod)
              ∧ is_Some (wfv1.Status_Nodes wf' !! apiv1.ObjectMeta_Name pod)
              ∧ ∀ k, k ≠ apiv1.ObjectMeta_Name pod →
                     wfv1.Status_Nodes wf' !! k = wfv1.Status_Nodes wf0 !! k) as Hone.
  { intros [= -> ->]%list_elem_of_singleton. split; [done|]. exists wn, wf.
    split_and!; [done..| |].
    - simpl. rewrite lookup_insert_eq. by eauto.
    - intros k Hk. simpl. by rewrite lookup_insert_ne. }
  destruct Hr as [[_ ->]|[(_ & _ & ->)|(_ & c' & _ & ->)]].
  - by intros ?%labelCompleted_no_workflow_write%elem_of_nil.
  - done.
  - by intros ?%labelCompleted_no_workflow_write%Hone.
Qed.

(** X11.  When the workflow write fails, [handlePodUpdate] stops there: the
    pod is not labelled, the cache is not written, and the controller and
    the cluster are as they were, so that the pod is reconciled again at its
    next event. *)
Theorem handlePodUpdate_update_failed amb pod wfc c namespace wf' :
  WorkflowWrite namespace wf' ∈ writes (handlePodUpdate amb pod wfc c) →
  UpdateWorkflow c namespace wf' = None →
  handlePodUpdate amb pod wfc c
  = {| controller := wfc; cluster := c; writes := [WorkflowWrite namespace wf'] |}.
Proof.
  unfold handlePodUpdate.
  destruct (reconcileNode_cases amb pod wfc c)
    as [->|(wn & np & nds & msg & wf & node & _ & _ & _ & _ & Hr)].
  { by intros ?%elem_of_nil. }
  cbv zeta in Hr.
  destruct Hr as [[_ ->]|[(_ & _ & ->)|(_ & c' & Hu & ->)]].
  - by intros ?%labelCompleted_no_workflow_write%elem_of_nil.
  - by intros [= -> ->]%list_elem_of_singleton.
  - intros [= -> ->]%labelCompleted_no_workflow_write%list_elem_of_singleton.
    congruence.
Qed.

(** X12.  [handlePodUpdate] changes nothing of the controller but the
    completed-pod cache, and of the cache nothing but the entry of the pod's
    name: the configuration, the name and namespace of the config map, the
    life time of the cache entries and the entries of all other names are as
    they were. *)
Theorem handlePodUpdate_controller_frame amb pod wfc c :
  let wfc' := controller (handlePodUpdate amb pod wfc c) in
  Config wfc' = Config wfc
  ∧ ConfigMap wfc' = ConfigMap wfc
  ∧ ConfigMapNS wfc' = ConfigMapNS wfc
  ∧ gocache.defaultExpiration (completedPodCache wfc')
    = gocache.defaultExpiration (completedPodCache wfc)
  ∧ ∀ k, k ≠ apiv1.ObjectMeta_Name pod →
         gocache.items (completedPodCache wfc') !! k
         = gocache.items (completedPodCache wfc) !! k.
Proof.
  cbv zeta. unfold handlePodUpdate.
  pose proof (reconcileNode_writes amb pod wfc c) as Hw.
  destruct (reconcileNode amb pod wfc c) as [o|[node o]].
  { by destruct Hw as (-> & _). }
  destruct Hw as [Hc _].
  destruct (labelCompleted_writes amb pod node o) as [->|[(_ & -> & _)|(_ & ->)]];
    rewrite Hc; [done..|].
  simpl. split_and!; [done..|]. intros k Hk. by rewrite lookup_insert_ne.
Qed.

Lemma inferFailedReason_not_daemoned seed pod :
  (inferFailedReason seed pod).1.2 = Some false.
Proof.
  unfold inferFailedReason. case_bool_decide; [done|].
  destruct (scanInitContainers _ _) as [r|] eqn:Hi.
  { apply scanInitContainers_Some in Hi as (pre & ctr & t & post & _ & _ & _ & Hr).
    by rewrite Hr. }
  by repeat case_match.
Qed.

(** A daemoned node whose pod has terminated: [applyUpdates] is given the
    daemon status false, clears the flag and reports an update; a terminal
    node stays terminal. *)
Lemma applyUpdates_daemon_cleared now pod node newPhase message :
  wfv1.Completed node = true → wfv1.IsDaemoned node = true →
  let r := applyUpdates now pod node newPhase (Some false) message in
  r.1 = true ∧ wfv1.Daemoned r.2 = None ∧ wfv1.Completed r.2 = true.
Proof.
  intros Hc Hd. cbv zeta. unfold applyUpdates.
  rewrite (updatePhase_completed _ _ _ Hc).
  assert (∃ n2, updateDaemoned pod (Some false) (false, node) = (true, n2)
                ∧ wfv1.Daemoned n2 = None ∧ wfv1.Phase n2 = wfv1.Phase node)
    as (n2 & -> & Hd2 & Hp2).
  { unfold updateDaemoned, wfv1.IsDaemoned in *. simpl.
    destruct (wfv1.Daemoned node) as [[|]|] eqn:Hdn; try done. simpl.
    case_bool_decide; eexists; split_and!; done. }
  set (st3 := updateOutputs pod (true, n2)).
  assert (st3.1 = true) as Hu3.
  { subst st3. unfold updateOutputs. by repeat case_match. }
  destruct (updateOutputs_frame pod (true, n2)) as (Hd3 & _).
  destruct (updateOutputs_result pod (true, n2)) as [Hp3 _].
  fold st3 in Hd3, Hp3. simpl in Hd3, Hp3.
  destruct (updateMessage_frame message st3) as (Hu4 & Hp4 & Hd4 & _).
  destruct (updateFinishedAt_frame now pod (updateMessage message st3)) as (Hp5 & Hd5 & _).
  split_and!.
  - apply updateFinishedAt_reported. by rewrite Hu4.
  - by rewrite Hd5, Hd4, Hd3.
  - unfold wfv1.Completed in *. rewrite Hp5, Hp4.
    destruct Hp3 as [-> | ->]; [by rewrite Hp2 | done].
Qed.

(** X13.  When the pod of a terminal, daemoned node is observed Succeeded
    or Failed, and the observation gets to the node (the pod's name is not
    in the completed-pod cache, the pod has no completed=true label, it
    names its workflow, and the workflow and the node are found),
    [handlePodUpdate] writes the workflow with the node's daemon flag
    cleared and the node still terminal, and once that write has succeeded
    labels the pod completed: the flag no longer holds the labelling back. *)
Theorem handlePodUpdate_daemon_terminated amb pod wfc c workflowName wf node :
  gocache.Get (now amb) (completedPodCache wfc) (apiv1.ObjectMeta_Name pod) = false →
  mapIndex (apiv1.Labels pod) common.LabelKeyCompleted ≠ "true" →
  apiv1.Labels pod !! common.LabelKeyWorkflow = Some workflowName →
  apiv1.Status_Phase pod = apiv1.PodSucceeded ∨ apiv1.Status_Phase pod = apiv1.PodFailed →
  GetWorkflow c (apiv1.ObjectMeta_Namespace pod) workflowName = Some wf →
  wfv1.Status_Nodes wf !! apiv1.ObjectMeta_Name pod = Some node →
  wfv1.Completed node = true →
  wfv1.IsDaemoned node = true →
  let o := handlePodUpdate amb pod wfc c in
  ∃ wf' node',
    head (writes o) = Some (WorkflowWrite (apiv1.ObjectMeta_Namespace pod) wf')
    ∧ wfv1.Status_Nodes wf' !! apiv1.ObjectMeta_Name pod = Some node'
    ∧ wfv1.Daemoned node' = None
    ∧ wfv1.Completed node' = true
    ∧ (is_Some (UpdateWorkflow c (apiv1.ObjectMeta_Namespace pod) wf') →
       writes o !! 1%nat
       = Some (PodLabelWrite (apiv1.ObjectMeta_Name pod) (apiv1.ObjectMeta_Namespace pod)
                 common.LabelKeyCompleted "true")).
Proof.
  intros Hget Hlab Hl Hphase Hg Hn Hc Hd. cbv zeta.
  assert (∃ newPhase message,
            podPhaseSwitch (mapSeed amb) pod = Some (newPhase, Some false, message))
    as (np & msg & Hs).
  { unfold podPhaseSwitch. destruct Hphase as [-> | ->]; [by eauto|].
    pose proof (inferFailedReason_not_daemoned (mapSeed amb) pod) as Hf.
    destruct (inferFailedReason _ _) as [[p d] m]. simpl in Hf. subst d. by eauto. }
  destruct (applyUpdates_daemon_cleared (now amb) pod node np msg Hc Hd)
    as (Hu & Hd' & Hc').
  unfold handlePodUpdate, reconcileNode.
  rewrite Hget, (bool_decide_eq_false_2 _ Hlab), Hl, Hs, Hg, Hn.
  destruct (applyUpdates _ _ _ _ _ _) as [u node'] eqn:Hr. simpl in Hu, Hd', Hc'. subst u.
  simpl. exists (setNode wf (apiv1.ObjectMeta_Name pod) node'), node'.
  assert (wfv1.IsDaemoned node' = false) as Hnd.
  { unfold wfv1.IsDaemoned. by rewrite Hd'. }
  destruct (UpdateWorkflow _ _ _) as [c'|] eqn:Hup.
  - unfold labelCompleted. rewrite Hc', Hnd. simpl.
    destruct (AddPodLabel _ _ _ _ _); simpl;
      (split_and!; [done|by rewrite lookup_insert_eq|done..]).
  - simpl. split_and!; [done|by rewrite lookup_insert_eq|done|done|].
    by intros [? ?].
Qed.

(** X14.  Replaying an observation writes no workflow.  When the workflow
    read holds, for the pod, the node [applyUpdates] left at an earlier
    observation of the same pod (one whose outputs decoded),
    [applyUpdates] reports nothing and [handlePodUpdate] goes straight to
    its final block; for a node that is not terminal, or is daemoned, it
    then returns with nothing written at all. *)
Theorem handlePodUpdate_replay amb pod wfc c workflowName wf
    now0 node newPhase newDaemonStatus message :
  let node' := (applyUpdates now0 pod node newPhase newDaemonStatus message).2 in
  let unchanged := {| controller := wfc; cluster := c; writes := [] |} in
  now0 ≠ 0 →
  ¬ outputsUndecodable pod node →
  gocache.Get (now amb) (completedPodCache wfc) (apiv1.ObjectMeta_Name pod) = false →
  mapIndex (apiv1.Labels pod) common.LabelKeyCompleted ≠ "true" →
  apiv1.Labels pod !! common.LabelKeyWorkflow = Some workflowName →
  podPhaseSwitch (mapSeed amb) pod = Some (newPhase, newDaemonStatus, message) →
  GetWorkflow c (apiv1.ObjectMeta_Namespace pod) workflowName = Some wf →
  wfv1.Status_Nodes wf !! apiv1.ObjectMeta_Name pod = Some node' →
  handlePodUpdate amb pod wfc c = labelCompleted amb pod node' unchanged
  ∧ (∀ namespace wf', WorkflowWrite namespace wf' ∉ writes (handlePodUpdate amb pod wfc c))
  ∧ (wfv1.Completed node' = false ∨ wfv1.IsDaemoned node' = true →
     handlePodUpdate amb pod wfc c = unchanged).
Proof.
  intros node' unchanged Hnow Hdec Hget Hlab Hl Hs Hg Hn.
  assert (applyUpdates (now amb) pod node' newPhase newDaemonStatus message
          = (false, node')) as Hidem.
  { by apply applyUpdates_settles. }
  assert (handlePodUpdate amb pod wfc c = labelCompleted amb pod node' unchanged) as Hh.
  { unfold handlePodUpdate, reconcileNode.
    by rewrite Hget, (bool_decide_eq_false_2 _ Hlab), Hl, Hs, Hg, Hn, Hidem. }
  split_and!; [done| |].
  - intros namespace wf'. rewrite Hh.
    by intros ?%labelCompleted_no_workflow_write%elem_of_nil.
  - rewrite Hh. unfold labelCompleted.
    intros [-> | ->]; [done|]. by destruct (wfv1.Completed node').
Qed.


(** ** The config source *)

Lemma configMapAddFunc_keeps obj wfc :
  let wfc' := configMapAddFunc obj wfc in
  completedPodCache wfc' = completedPodCache wfc
  ∧ ConfigMap wfc' = ConfigMap wfc
  ∧ ConfigMapNS wfc' = ConfigMapNS wfc
  ∧ (Config wfc' = Config wfc ∨ ExecutorImage (Config wfc') ≠ "").
Proof.
  cbv zeta. unfold configMapAddFunc, updateConfig.
  destruct obj as [| |cm|]; try by auto.
  repeat first [case_bool_decide | case_match]; simpl; auto.
Qed.

(** X15.  Whatever events the config-map informer delivers, in whatever
    number and of whatever object, the controller never loses its executor
    image: if the stored configuration had one, it has one afterwards, and a
    configuration that replaced the stored one has one.  The events leave
    the completed-pod cache and the name and namespace of the config map
    alone. *)
Theorem config_events_keep_executor_image (events : list ConfigMapEvent) wfc :
  let wfc' := foldl onConfigMapEvent wfc events in
  (ExecutorImage (Config wfc) ≠ "" → ExecutorImage (Config wfc') ≠ "")
  ∧ (Config wfc' = Config wfc ∨ ExecutorImage (Config wfc') ≠ "")
  ∧ completedPodCache wfc' = completedPodCache wfc
  ∧ ConfigMap wfc' = ConfigMap wfc
  ∧ ConfigMapNS wfc' = ConfigMapNS wfc.
Proof.
  cbv zeta. revert wfc. induction events as [|e events IH]; intros wfc; [by auto|].
  simpl. destruct (IH (onConfigMapEvent wfc e)) as (Hk & Hr & Hc & Hm & Hn).
  assert (completedPodCache (onConfigMapEvent wfc e) = completedPodCache wfc
          ∧ ConfigMap (onConfigMapEvent wfc e) = ConfigMap wfc
          ∧ ConfigMapNS (onConfigMapEvent wfc e) = ConfigMapNS wfc
          ∧ (Config (onConfigMapEvent wfc e) = Config wfc
             ∨ ExecutorImage (Config (onConfigMapEvent wfc e)) ≠ ""))
    as (Hc1 & Hm1 & Hn1 & He).
  { destruct e as [obj|old new]; apply configMapAddFunc_keeps. }
  rewrite Hc, Hm, Hn, Hc1, Hm1, Hn1. split_and!; [| |done..].
  - intros Hwfc. apply Hk. destruct He as [He|?]; [by rewrite He | done].
  - destruct Hr as [Hr|?]; [|by right]. rewrite Hr.
    destruct He as [He|?]; [left | right]; done.
Qed.

Section Sources.
Context {S : ConfigSource}.

(** X16.  [ResyncConfig] gets the config map from the namespace the
    environment names, or from the default namespace when the variable is
    unset or empty.  When the get fails it returns an error and leaves the
    controller as it was.  When the get succeeds it records the namespace
    of the config map whether or not the payload is accepted; with an error
    the stored configuration is the previous one, and without an error it
    has an executor image. *)
Theorem ResyncConfig_outcome wfc c :
  let namespace :=
    match LookupEnv EnvVarNamespace with
    | None | Some "" => DefaultControllerNamespace
    | Some namespace => namespace
    end in
  let r := ResyncConfig wfc c in
  (GetConfigMap c namespace (ConfigMap wfc) = None →
   r = (Some InternalWrapError, wfc))
  ∧ (∀ cm, GetConfigMap c namespace (ConfigMap wfc) = Some cm →
       ConfigMapNS r.2 = cmNamespace cm
       ∧ ConfigMap r.2 = ConfigMap wfc
       ∧ completedPodCache r.2 = completedPodCache wfc
       ∧ (is_Some r.1 → Config r.2 = Config wfc)
       ∧ (r.1 = None → ExecutorImage (Config r.2) ≠ "")).
Proof.
  cbv zeta. unfold ResyncConfig.
  assert ((if bool_decide (default "" (LookupEnv EnvVarNamespace) = "")
           then DefaultControllerNamespace
           else default "" (LookupEnv EnvVarNamespace))
          = match LookupEnv EnvVarNamespace with
            | None | Some "" => DefaultControllerNamespace
            | Some namespace => namespace
            end) as ->.
  { destruct (LookupEnv EnvVarNamespace) as [[|a s]|]; simpl; try done;
      by case_bool_decide. }
  split; [by intros ->|]. intros cm ->. unfold updateConfig.
  repeat first [case_bool_decide | case_match]; simpl;
    split_and!; try done; by intros [? ?].
Qed.

End Sources.

(** ** The label selectors of the watches *)

Lemma rangeOrder_Permutation seed (m : gmap string string) :
  rangeOrder seed m ≡ₚ map_to_list m.
Proof.
  unfold rangeOrder, rotate.
  rewrite Permutation_app_comm. by rewrite take_drop.
Qed.

(** The first entry of [rangeOrder] is the one [rangeFirst] yields. *)
Lemma rangeOrder_first seed (m : gmap string string) :
  snd <$> head (rangeOrder seed m) = rangeFirst seed m.
Proof.
  unfold rangeOrder, rangeFirst, rotate. rewrite length_map_to_list, head_lookup.
  pose proof (length_map_to_list m) as Hsize.
  destruct (map_to_list m) as [|e l] eqn:Hl.
  { by rewrite drop_nil, take_nil, lookup_nil. }
  assert (seed `mod` size m < length (e :: l))%nat as Hlt.
  { rewrite Hsize. apply Nat.mod_upper_bound. rewrite <- Hsize. done. }
  rewrite lookup_app_l by (rewrite length_drop; lia).
  by rewrite lookup_drop, Nat.add_0_r.
Qed.

Lemma foldl_Param (entries : list (string * string)) : ∀ req,
  let req' := foldl (λ req entry,
                       rest.Param req "labelSelector" (entry.1 +:+ "=" +:+ entry.2))
                req entries in
  rest.namespace req' = rest.namespace req
  ∧ rest.resource req' = rest.resource req
  ∧ (∀ k, k ≠ "labelSelector" → rest.params req' !! k = rest.params req !! k)
  ∧ (entries ≠ [] →
     rest.params req' !! "labelSelector"
     = Some (default [] (rest.params req !! "labelSelector")
             ++ ((λ entry, entry.1 +:+ "=" +:+ entry.2) <$> entries))%list).
Proof.
  induction entries as [|e entries IH]; intros req; simpl; [done|].
  destruct (IH (rest.Param req "labelSelector" (e.1 +:+ "=" +:+ e.2)))
    as (-> & -> & Hother & Hsel).
  split_and!; [done..| |].
  - intros k Hk. rewrite Hother by done. simpl. by rewrite lookup_insert_ne.
  - intros _. destruct entries as [|e' entries'].
    + simpl. by rewrite lookup_insert_eq.
    + rewrite Hsel by done. simpl. rewrite lookup_insert_eq. simpl.
      by rewrite <- app_assoc.
Qed.

(** X17.  [addLabelSelectors] adds to the request one [labelSelector]
    parameter [label=value] for every entry of the configured match labels,
    after the values the parameter already has and in the order the runtime
    visits the map; it leaves the namespace, the resource and every other
    parameter alone, and with no match labels configured returns the
    request as it is. *)
Theorem addLabelSelectors_params seed wfc req :
  let req' := addLabelSelectors seed wfc req in
  let labels := MatchLabels (Config wfc) in
  rest.namespace req' = rest.namespace req
  ∧ rest.resource req' = rest.resource req
  ∧ (∀ k, k ≠ "labelSelector" → rest.params req' !! k = rest.params req !! k)
  ∧ (labels = ∅ → req' = req)
  ∧ ∃ added,
      default [] (rest.params req' !! "labelSelector")
      = (default [] (rest.params req !! "labelSelector") ++ added)%list
      ∧ added ≡ₚ (λ entry, entry.1 +:+ "=" +:+ entry.2) <$> map_to_list labels.
Proof.
  cbv zeta. unfold addLabelSelectors.
  destruct (foldl_Param (rangeOrder seed (MatchLabels (Config wfc))) req)
    as (Hn & Hr & Hother & Hsel).
  split_and!; [done..| |].
  - intros Hempty. unfold rangeOrder, rotate.
    by rewrite Hempty, map_to_list_empty, drop_nil, take_nil.
  - exists ((λ entry, entry.1 +:+ "=" +:+ entry.2)
              <$> rangeOrder seed (MatchLabels (Config wfc))).
    split; [|by rewrite rangeOrder_Permutation].
    destruct (rangeOrder seed (MatchLabels (Config wfc))) as [|e l] eqn:Ho.
    + simpl. by rewrite app_nil_r.
    + by rewrite Hsel.
Qed.

(** ** The informers and the loop of Run *)

Section Loop.
Context {S : ConfigSource} {O : WorkflowOperator}.

Lemma RunIteration_counter amb pick lp :
  let lp' := RunIteration amb pick lp in
  (Run_i lp = 1 → Run_i lp' = 1 ∧ sizeLogs lp' = sizeLogs lp)
  ∧ (Run_i lp = 0 → waiting lp = false →
     Run_i lp' = 1
     ∧ sizeLogs lp' = (sizeLogs lp
                       ++ [(length (wfUpdates (channels lp)),
                            length (podUpdates (channels lp)))])%list).
Proof.
  cbv zeta. unfold RunIteration, logChannelSizes. split.
  - intros Hi. rewrite Hi. simpl.
    destruct (waiting lp); repeat case_match; simpl; done.
  - intros Hi ->. rewrite Hi. simpl. repeat case_match; simpl; by rewrite ?Hi.
Qed.

(** X18.  The loop of [Run] logs the channel sizes once.  The counter [i]
    is incremented inside the block that tests [i%100 == 0] and nowhere
    else: the first turn of the loop logs the sizes and leaves [i] at 1, and
    from then on no turn changes [i] or logs again, however many events are
    handled. *)
Theorem RunLoop_logs_once turns ch wfc c :
  turns ≠ [] →
  let lp := RunLoop turns (RunStart ch wfc c) in
  Run_i lp = 1
  ∧ sizeLogs lp = [(length (wfUpdates ch), length (podUpdates ch))].
Proof.
  intros Hturns. cbv zeta. unfold RunLoop.
  destruct turns as [|turn turns]; [done|]. simpl.
  destruct (RunIteration_counter turn.1 turn.2 (RunStart ch wfc c)) as [_ Hfirst].
  destruct (Hfirst eq_refl eq_refl) as [Hi Hlog]. simpl in Hlog.
  revert Hi Hlog. generalize (RunIteration turn.1 turn.2 (RunStart ch wfc c)).
  clear Hturns Hfirst. induction turns as [|t turns IH]; intros lp Hi Hlog; [done|].
  simpl. destruct (RunIteration_counter t.1 t.2 lp) as [Hnext _].
  destruct (Hnext Hi) as [Hi' Hlog']. apply IH; [done|]. by rewrite Hlog'.
Qed.

(** X19.  With no workflow event pending, the loop handles the pod events
    in the order of the channel, one a turn: after as many turns as there
    are pods at the front of the channel, the controller and the cluster are
    what [handlePodUpdate] makes of them pod after pod, each at the instant
    of its turn, and the channel holds the pods behind them. *)
Theorem RunLoop_pods_in_order (turns : list (Ambient * bool)) : ∀ lp pods rest,
  wfUpdates (channels lp) = [] →
  podUpdates (channels lp) = (pods ++ rest)%list →
  length turns = length pods →
  let lp' := RunLoop turns lp in
  (Run_wfc lp', Run_cluster lp')
  = handlePods (zip (turns.*1) pods) (Run_wfc lp) (Run_cluster lp)
  ∧ wfUpdates (channels lp') = []
  ∧ podUpdates (channels lp') = rest.
Proof.
  cbv zeta. unfold RunLoop, handlePods.
  induction turns as [|turn turns IH]; intros lp pods rest Hwf Hpods Hlen.
  { destruct pods; [|done]. by simpl in *. }
  destruct pods as [|pod pods]; [done|]. simpl in Hlen, Hpods.
  simpl.
  assert (∃ i w logs,
            RunIteration turn.1 turn.2 lp
            = {| Run_i := i; waiting := w;
                 channels := {| wfUpdates := []; podUpdates := (pods ++ rest)%list |};
                 Run_wfc := controller (handlePodUpdate turn.1 pod (Run_wfc lp)
                                          (Run_cluster lp));
                 Run_cluster := cluster (handlePodUpdate turn.1 pod (Run_wfc lp)
                                           (Run_cluster lp));
                 sizeLogs := logs |}) as (i & w & logs & Hstep).
  { unfold RunIteration, logChannelSizes, afterHandle.
    destruct (waiting lp); [|case_bool_decide]; simpl; rewrite Hwf, Hpods;
      simpl; rewrite ?Hwf; by eexists _, _, _. }
  rewrite Hstep.
  match goal with
  | |- context [foldl _ ?l turns] =>
      specialize (IH l pods rest eq_refl eq_refl ltac:(lia))
  end.
  simpl in IH. apply IH.
Qed.

(** X20.  The handlers of the pod informer queue the pods in the order
    they are delivered: a run of deliveries, of whatever objects, that the
    channel has room for leaves the pods among them at the back of the pod
    channel, in order, and the workflow channel untouched; objects that are
    not pods are passed over. *)
Theorem deliverPods_in_order (objs : list Object) : ∀ ch,
  (Z.of_nat (length (podUpdates ch) + length (podsOf objs)) ≤ podUpdatesCapacity)%Z →
  deliverPods objs ch
  = Some {| wfUpdates := wfUpdates ch;
            podUpdates := (podUpdates ch ++ podsOf objs)%list |}.
Proof.
  unfold deliverPods.
  induction objs as [|obj objs IH]; intros ch Hroom; simpl.
  { rewrite app_nil_r. by destruct ch. }
  destruct obj as [wf|pod|cm|]; simpl in *; try by apply IH.
  unfold send. rewrite bool_decide_eq_true_2 by lia.
  simpl. rewrite IH; simpl.
  - by rewrite <- app_assoc.
  - rewrite length_app. simpl. lia.
Qed.

End Loop.

End Properties.

(** * The properties at concrete inputs *)

Import Sample Scenario.

(** The boundary scenarios 3, 4 and 5 of the specification. *)
Example init_artifact_load_failure :
  inferFailedReason 0
    (pod "step" "argo" ∅ ∅ apiv1.PodFailed ""
       [terminated "init" 1 "no such key" jan2018] [])
  = (wfv1.NodeError, Some false, "failed to load artifacts: no such key").
Proof. reflexivity. Qed.

Example main_and_wait_failed :
  inferFailedReason 0
    (pod "step" "argo" ∅ ∅ apiv1.PodFailed ""
       [] [terminated "wait" 1 "upload 500" jan2018; terminated "main" 2 "oom" jan2018])
  = (wfv1.NodeFailed, Some false, "oom").
Proof. vm_compute. reflexivity. Qed.

Example sidecar_only_failure :
  inferFailedReason 0
    (pod "step" "argo" ∅ ∅ apiv1.PodFailed ""
       [] [terminated "main" 0 "" jan2018; terminated "db" 137 "" jan2018])
  = (wfv1.NodeFailed, Some false, "failed with exit code 137").
Proof. vm_compute. reflexivity. Qed.

(** C1, at an input where it fails.  The node [step] is recorded as Failed,
    with a finishedAt and an earlier message, and its pod is observed Failed
    with another [status.message].  [applyUpdates] replaces the node's
    message and returns false; [handlePodUpdate] therefore writes no
    workflow, and goes on to label the pod completed. *)
Theorem applyUpdates_unreported_message :
  let r := applyUpdates t1 evictedPod failedNode wfv1.NodeFailed (Some false)
             (apiv1.Status_Message evictedPod) in
  podPhaseSwitch 0 evictedPod
    = Some (wfv1.NodeFailed, Some false, apiv1.Status_Message evictedPod)
  ∧ r.1 = false
  ∧ wfv1.Message r.2 = apiv1.Status_Message evictedPod
  ∧ wfv1.Message r.2 ≠ wfv1.Message failedNode
  ∧ writes (handlePodUpdate (at_ t1) evictedPod controller0 failedAlready)
    = [PodLabelWrite "step" "argo" common.LabelKeyCompleted "true"; CacheWrite "step"].
Proof.
  cbv zeta. split; [|split; [|split; [|split]]]; vm_compute; try reflexivity.
  discriminate.
Qed.

(** C2, as stated, fails: a Succeeded node without outputs, whose pod
    carries an outputs annotation that does not decode, leaves
    [applyUpdates] with the phase Error. *)
Lemma applyUpdates_terminal_phase_changes :
  let node := node wfv1.NodeSucceeded None "" jan2018 in
  wfv1.Completed node = true
  ∧ wfv1.Phase (applyUpdates t1 badOutputsPod node wfv1.NodeSucceeded (Some false) "").2
    ≠ wfv1.Phase node.
Proof. cbv zeta. split; vm_compute; [reflexivity | discriminate]. Qed.

Lemma applyUpdates_terminal_phase_witness :
  let node := node wfv1.NodeFailed None "oom" jan2018 in
  wfv1.Completed node = true
  ∧ wfv1.Phase (applyUpdates t1 (succeededPod "argo") node wfv1.NodeSucceeded
                  (Some false) "").2
    = wfv1.NodeFailed.
Proof.
  split; [reflexivity|].
  apply (applyUpdates_terminal_phase (D := decoders) t1 (succeededPod "argo")
           (node wfv1.NodeFailed None "oom" jan2018)); [reflexivity|].
  intros (s & Hs & _). vm_compute in Hs. discriminate.
Defined.

(** C7, as stated, fails: for the daemon pod, whose init container finished
    one second into 2018, the node becomes terminal with a zero finishedAt
    and [applyUpdates] sets finishedAt to the current time, not to the
    latest [terminated.finishedAt]. *)
Lemma applyUpdates_finishedAt_daemoned_now :
  let node := node wfv1.NodeRunning None "" 0 in
  let node' := (applyUpdates t1 daemonPod node wfv1.NodeSucceeded (Some true) "").2 in
  wfv1.Completed node' = true
  ∧ wfv1.FinishedAt node = 0
  ∧ terminatedAt (apiv1.Status_InitContainerStatuses daemonPod)
    = [(jan2018 + 1 * time.Second)%Z]
  ∧ latestFinishedAt daemonPod = (jan2018 + 1 * time.Second)%Z
  ∧ wfv1.FinishedAt node' = t1
  ∧ wfv1.FinishedAt node' ≠ latestFinishedAt daemonPod.
Proof.
  cbv zeta. split; [|split; [|split; [|split; [|split]]]]; vm_compute; try reflexivity.
  discriminate.
Qed.

Lemma applyUpdates_finishedAt_witness :
  wfv1.FinishedAt
    (applyUpdates t1 (succeededPod "argo") (node wfv1.NodeRunning None "" 0)
       wfv1.NodeSucceeded (Some false) "").2
  = (jan2018 + 4 * time.Second)%Z.
Proof.
  destruct (applyUpdates_finishedAt (D := decoders) t1 (succeededPod "argo")
              (node wfv1.NodeRunning None "" 0) wfv1.NodeSucceeded (Some false) "")
    as [Hset _].
  rewrite Hset; vm_compute; reflexivity.
Defined.

(** C8, as stated, fails: on the pod with the two failed sidecars, two
    invocations that differ in where the runtime starts the range over the
    map return different messages. *)
Lemma inferFailedReason_differs :
  inferFailedReason 0 twoSidecarsFailed = (wfv1.NodeFailed, Some false, "killed")
  ∧ inferFailedReason 1 twoSidecarsFailed
    = (wfv1.NodeFailed, Some false, "failed with exit code 1")
  ∧ inferFailedReason 0 twoSidecarsFailed ≠ inferFailedReason 1 twoSidecarsFailed.
Proof. split; [|split]; vm_compute; try reflexivity. discriminate. Qed.

Lemma handlePodUpdate_completed_noop_witness :
  (gocache.Get t1 (completedPodCache controller0) "step" = true
   ∨ apiv1.Labels labelledPod !! common.LabelKeyCompleted = Some "true")
  ∧ handlePodUpdate (at_ t1) labelledPod controller0 twoNamespaces
    = {| controller := controller0; cluster := twoNamespaces; writes := [] |}.
Proof.
  assert (apiv1.Labels labelledPod !! common.LabelKeyCompleted = Some "true") as Hl
    by (vm_compute; reflexivity).
  split; [by right|].
  apply (handlePodUpdate_completed_noop (K := client) (at_ t1) labelledPod controller0
           twoNamespaces).
  by right.
Defined.

Lemma handlePodUpdate_labelling_witness :
  reconcileNode (at_ t1) (succeededPod "argo") controller0 twoNamespaces
    = inr (succeededNode, afterWorkflowWrite)
  ∧ PodLabelWrite "step" "argo" common.LabelKeyCompleted "true" ∈ writes firstObservation
  ∧ CacheWrite "step" ∈ writes firstObservation.
Proof.
  assert (reconcileNode (K := client) (at_ t1) (succeededPod "argo") controller0
            twoNamespaces = inr (succeededNode, afterWorkflowWrite)) as Hrec.
  { vm_cast_no_check
      (eq_refl (A := Outcome (K := client)
                     + wfv1.NodeStatus Parameters * Outcome (K := client))
         (inr (succeededNode, afterWorkflowWrite))). }
  split; [exact Hrec|].
  destruct (handlePodUpdate_labelling (K := client) _ _ _ _ _ _ Hrec)
    as (Hlabel & Hcache & _).
  split; [apply Hlabel | apply Hcache]; vm_compute; eauto.
Defined.

Lemma updateConfig_rejects_or_replaces_witness :
  (updateConfig controller0 (configMap "namespace: argo")).2 = controller0
  ∧ Config (updateConfig controller0
              (configMap "executorImage: argoproj/argoexec:latest")).2
    = configOf "argoproj/argoexec:latest".
Proof.
  split.
  - apply (updateConfig_rejects_or_replaces (D := decoders) controller0
             (configMap "namespace: argo")).
    right; right. eexists _, _. split_and!; vm_compute; reflexivity.
  - eapply (updateConfig_rejects_or_replaces (D := decoders) controller0
              (configMap "executorImage: argoproj/argoexec:latest"));
      [vm_compute; reflexivity | vm_compute; reflexivity | vm_compute; discriminate].
Defined.

(** C9, as stated, fails.  Each pod below is running, carries the daemon
    template and reports no container status, so it counts as ready; its
    node is still not marked Succeeded with daemon status true.  A node
    already recorded as Failed is written with the daemon flag and stays
    Failed.  A node with an explicit daemoned = false is written Succeeded
    with the flag still false.  With an outputs annotation that does not
    decode the node is written with the phase Error.  When the name of the
    pod is in the completed-pod cache, put there for the pod [step] of the
    other namespace while the node of this one is still running, or when
    the pod is labelled completed, nothing is written. *)
Lemma daemon_readiness_not_marked :
  podPhaseSwitch 0 bareDaemonPod = Some (wfv1.NodeSucceeded, Some true, "")
  ∧ podPhaseSwitch 0 daemonBadOutputsPod = Some (wfv1.NodeSucceeded, Some true, "")
  ∧ podPhaseSwitch 0 labelledDaemonPod = Some (wfv1.NodeSucceeded, Some true, "")
  ∧ writtenSteps (handlePodUpdate (at_ t1) bareDaemonPod controller0 failedAlready)
    = [(wfv1.NodeFailed, Some true)]
  ∧ writtenSteps (handlePodUpdate (at_ t1) bareDaemonPod controller0 explicitlyNotDaemoned)
    = [(wfv1.NodeSucceeded, Some false)]
  ∧ writtenSteps (handlePodUpdate (at_ t1) daemonBadOutputsPod controller0 twoNamespaces)
    = [(wfv1.NodeError, Some true)]
  ∧ GetWorkflow (cluster stagingObservation) "argo" "wf"
    = GetWorkflow twoNamespaces "argo" "wf"
  ∧ writes (handlePodUpdate (at_ (t1 + 1 * time.Second)) bareDaemonPod
              (controller stagingObservation) (cluster stagingObservation))
    = []
  ∧ writes (handlePodUpdate (at_ t1) labelledDaemonPod controller0 twoNamespaces) = [].
Proof.
  split; [|split; [|split; [|split; [|split; [|split; [|split; [|split]]]]]]];
    vm_compute; reflexivity.
Qed.

Lemma daemon_readiness_witness :
  apiv1.Status_ContainerStatuses bareDaemonPod = []
  ∧ ∃ wf' node',
      handlePodUpdate (at_ t1) bareDaemonPod controller0 twoNamespaces
      = {| controller := controller0;
           cluster := default twoNamespaces (UpdateWorkflow twoNamespaces "argo" wf');
           writes := [WorkflowWrite "argo" wf'] |}
      ∧ wfv1.Status_Nodes wf' !! "step" = Some node'
      ∧ wfv1.Phase node' = wfv1.NodeSucceeded
      ∧ wfv1.Daemoned node' = Some true.
Proof.
  split; [reflexivity|].
  destruct (daemon_readiness (K := client) (at_ t1) bareDaemonPod controller0 twoNamespaces
              daemonTemplate {| wfv1.Daemon := Some true |})
    as (_ & _ & _ & Hempty); [vm_compute; reflexivity..|].
  destruct (Hempty eq_refl "wf"
              {| wfv1.ObjectMeta_Name := "wf";
                 wfv1.Status_Nodes := {[ "step" := node wfv1.NodeRunning None "" 0 ]} |}
              (node wfv1.NodeRunning None "" 0))
    as (wf' & node' & Hh & _ & Hn & _ & Hp & Hd & _);
    [try (vm_compute; reflexivity).. | by exists wf', node'].
  - vm_compute. discriminate.
  - discriminate.
  - intros (s & Hs & _). vm_compute in Hs. discriminate.
Defined.

(** C10, as stated, fails: two hours after the name [step] was written to
    the cache for the pod of namespace [argo], the entry has expired, and
    the observation of the pod [step] of namespace [staging] is reconciled
    in full. *)
Lemma completed_cache_entry_expires :
  CacheWrite "step" ∈ writes firstObservation
  ∧ apiv1.ObjectMeta_Name (succeededPod "staging")
    = apiv1.ObjectMeta_Name (succeededPod "argo")
  ∧ length (writes (handlePodUpdate (at_ (t1 + 2 * time.Hour)) (succeededPod "staging")
                      (controller firstObservation) (cluster firstObservation)))
    = 3%nat
  ∧ handlePodUpdate (at_ (t1 + 2 * time.Hour)) (succeededPod "staging")
      (controller firstObservation) (cluster firstObservation)
    ≠ {| controller := controller firstObservation;
         cluster := cluster firstObservation; writes := [] |}.
Proof.
  split; [|split; [|split]].
  - apply (list_elem_of_lookup_2 _ 2%nat). vm_compute. reflexivity.
  - reflexivity.
  - vm_compute. reflexivity.
  - intros Heq. apply (f_equal (λ o, length (writes o))) in Heq.
    vm_compute in Heq. discriminate.
Qed.

Lemma completed_cache_ignores_namespace_witness :
  handlePodUpdate (at_ (t1 + 30 * time.Minute)) (succeededPod "staging")
    (controller firstObservation) (cluster firstObservation)
  = {| controller := controller firstObservation;
       cluster := cluster firstObservation; writes := [] |}.
Proof.
  apply (completed_cache_ignores_namespace (K := client) (at_ t1) (succeededPod "argo")
           controller0 twoNamespaces);
    [reflexivity| |reflexivity|vm_compute; discriminate].
  apply (list_elem_of_lookup_2 _ 2%nat). vm_compute. reflexivity.
Defined.

(** * The further properties at concrete inputs *)

Import Deployment.

Lemma applyUpdates_idempotent_witness :
  applyUpdates (t1 + 1 * time.Hour) (succeededPod "argo")
    (applyUpdates t1 (succeededPod "argo") (node wfv1.NodeRunning None "" 0)
       wfv1.NodeSucceeded (Some false) "").2
    wfv1.NodeSucceeded (Some false) ""
  = (false,
     (applyUpdates t1 (succeededPod "argo") (node wfv1.NodeRunning None "" 0)
        wfv1.NodeSucceeded (Some false) "").2).
Proof.
  apply (applyUpdates_idempotent (D := decoders) t1 (t1 + 1 * time.Hour)
           (succeededPod "argo") (node wfv1.NodeRunning None "" 0)).
  - intros Hz. vm_compute in Hz. discriminate.
  - intros (s & Hs & _). vm_compute in Hs. discriminate.
Defined.

Lemma applyUpdates_undecodable_outputs_witness :
  outputsUndecodable badOutputsPod (node wfv1.NodeRunning None "" 0)
  ∧ (applyUpdates t1 badOutputsPod (node wfv1.NodeRunning None "" 0)
       wfv1.NodeSucceeded (Some false) "").1 = true
  ∧ wfv1.Phase (applyUpdates t1 badOutputsPod (node wfv1.NodeRunning None "" 0)
                  wfv1.NodeSucceeded (Some false) "").2 = wfv1.NodeError.
Proof.
  assert (outputsUndecodable badOutputsPod (node wfv1.NodeRunning None "" 0)) as Hu.
  { exists "". split; [|split]; vm_compute; reflexivity. }
  split; [exact Hu|].
  destruct (applyUpdates_undecodable_outputs (D := decoders) t1 badOutputsPod
              (node wfv1.NodeRunning None "" 0) wfv1.NodeSucceeded (Some false) "" Hu)
    as (Hr & Hp & _).
  by split.
Defined.

Lemma applyUpdates_terminal_finished_witness :
  wfv1.FinishedAt
    (applyUpdates t1 daemonPod (node wfv1.NodeRunning None "" 0)
       wfv1.NodeSucceeded (Some true) "").2 ≠ 0.
Proof.
  apply (applyUpdates_terminal_finished (D := decoders) t1 daemonPod
           (node wfv1.NodeRunning None "" 0) wfv1.NodeSucceeded (Some true) "").
  - intros Hz. vm_compute in Hz. discriminate.
  - vm_compute. reflexivity.
Defined.

Lemma handlePodUpdate_ignored_witness :
  apiv1.Labels strayPod !! common.LabelKeyWorkflow = None
  ∧ handlePodUpdate (at_ t1) strayPod controller0 twoNamespaces
    = {| controller := controller0; cluster := twoNamespaces; writes := [] |}.
Proof.
  split; [vm_compute; reflexivity|].
  apply (handlePodUpdate_ignored (K := client) (at_ t1) strayPod controller0 twoNamespaces).
  left. vm_compute. reflexivity.
Defined.

Lemma handlePodUpdate_written_workflow_witness :
  WorkflowWrite "argo" recordedWorkflow ∈ writes firstObservation
  ∧ ∃ wf, GetWorkflow twoNamespaces "argo" "wf" = Some wf
          ∧ ∀ k, k ≠ "step" →
                 wfv1.Status_Nodes recordedWorkflow !! k = wfv1.Status_Nodes wf !! k.
Proof.
  assert (WorkflowWrite "argo" recordedWorkflow ∈ writes firstObservation) as Hin.
  { apply (list_elem_of_lookup_2 _ 0%nat).
    vm_cast_no_check
      (eq_refl (Some (WorkflowWrite (D := decoders) "argo" recordedWorkflow))). }
  split; [exact Hin|].
  destruct (handlePodUpdate_written_workflow (K := client) (at_ t1) (succeededPod "argo")
              controller0 twoNamespaces "argo" recordedWorkflow Hin)
    as (_ & wn & wf & Hl & Hg & _ & _ & _ & Hk).
  vm_compute in Hl. injection Hl as <-. by exists wf.
Defined.

Lemma handlePodUpdate_update_failed_witness :
  handlePodUpdate (K := readOnly) (at_ t1) (succeededPod "argo") controller0 twoNamespaces
  = Build_Outcome (K := readOnly) controller0 twoNamespaces
      [WorkflowWrite "argo" recordedWorkflow].
Proof.
  apply (handlePodUpdate_update_failed (K := readOnly) (at_ t1) (succeededPod "argo")
           controller0 twoNamespaces "argo" recordedWorkflow); [|reflexivity].
  apply (list_elem_of_lookup_2 _ 0%nat).
  vm_cast_no_check
    (eq_refl (Some (WorkflowWrite (D := decoders) "argo" recordedWorkflow))).
Defined.

Lemma handlePodUpdate_daemon_terminated_witness :
  let o := handlePodUpdate (at_ (t1 + 1 * time.Hour)) evictedPod controller0
             (withNode daemonedNode) in
  ∃ wf' node',
    head (writes o) = Some (WorkflowWrite "argo" wf')
    ∧ wfv1.Status_Nodes wf' !! "step" = Some node'
    ∧ wfv1.Daemoned node' = None
    ∧ wfv1.Completed node' = true
    ∧ (is_Some (UpdateWorkflow (withNode daemonedNode) "argo" wf') →
       writes o !! 1%nat
       = Some (PodLabelWrite "step" "argo" common.LabelKeyCompleted "true")).
Proof.
  apply (handlePodUpdate_daemon_terminated (K := client) (at_ (t1 + 1 * time.Hour))
           evictedPod controller0 (withNode daemonedNode) "wf"
           {| wfv1.ObjectMeta_Name := "wf";
              wfv1.Status_Nodes := {[ "step" := daemonedNode ]} |} daemonedNode);
    try (vm_compute; reflexivity).
  - vm_compute. discriminate.
  - right. reflexivity.
Defined.

Lemma handlePodUpdate_replay_witness :
  let node' := (applyUpdates (D := decoders) t1 daemonPod (node wfv1.NodeRunning None "" 0)
                  wfv1.NodeSucceeded (Some true) "").2 in
  handlePodUpdate (at_ (t1 + 30 * time.Minute)) daemonPod controller0 (withNode node')
  = {| controller := controller0; cluster := withNode node'; writes := [] |}.
Proof.
  cbv zeta.
  destruct (handlePodUpdate_replay (K := client) (at_ (t1 + 30 * time.Minute)) daemonPod
              controller0
              (withNode (applyUpdates (D := decoders) t1 daemonPod (node wfv1.NodeRunning None "" 0)
                           wfv1.NodeSucceeded (Some true) "").2)
              "wf"
              {| wfv1.ObjectMeta_Name := "wf";
                 wfv1.Status_Nodes :=
                   {[ "step" := (applyUpdates (D := decoders) t1 daemonPod
                                   (node wfv1.NodeRunning None "" 0)
                                   wfv1.NodeSucceeded (Some true) "").2 ]} |}
              t1 (node wfv1.NodeRunning None "" 0) wfv1.NodeSucceeded (Some true) "")
    as (_ & _ & Hquiet);
    [try (vm_compute; reflexivity).. | apply Hquiet; right; vm_compute; reflexivity].
  - intros Hz. vm_compute in Hz. discriminate.
  - intros (s & Hs & _). vm_compute in Hs. discriminate.
  - vm_compute. discriminate.
Defined.

Lemma ResyncConfig_outcome_witness :
  (ResyncConfig controller0 twoNamespaces).1 = None
  ∧ ConfigMapNS (ResyncConfig controller0 twoNamespaces).2 = "kube-system"
  ∧ ExecutorImage (Config (ResyncConfig controller0 twoNamespaces).2) ≠ "".
Proof.
  destruct (ResyncConfig_outcome (S := configSource) controller0 twoNamespaces)
    as [_ Hgot].
  destruct (Hgot {| cmNamespace := "kube-system";
                    cmBody := configMap "executorImage: argoproj/argoexec:latest" |})
    as (Hns & _ & _ & _ & Himage); [vm_compute; reflexivity|].
  assert ((ResyncConfig controller0 twoNamespaces).1 = None) as Hnil
    by (vm_compute; reflexivity).
  split_and!; [exact Hnil | exact Hns | exact (Himage Hnil)].
Defined.

Lemma RunLoop_logs_once_witness :
  let lp := RunLoop [(at_ t1, true); (at_ t1, true); (at_ t1, false)]
              (RunStart (K := client) twoPods controller0 twoNamespaces) in
  Run_i lp = 1 ∧ sizeLogs lp = [(0%nat, 2%nat)].
Proof.
  apply (RunLoop_logs_once (O := operator)
           [(at_ t1, true); (at_ t1, true); (at_ t1, false)] twoPods controller0
           twoNamespaces).
  discriminate.
Defined.

Lemma RunLoop_pods_in_order_witness :
  let lp := RunLoop [(at_ t1, true); (at_ (t1 + 1 * time.Second), true)]
              (RunStart (K := client) twoPods controller0 twoNamespaces) in
  (Run_wfc lp, Run_cluster lp)
  = handlePods (K := client) [(at_ t1, succeededPod "argo");
                (at_ (t1 + 1 * time.Second), succeededPod "staging")]
      controller0 twoNamespaces
  ∧ wfUpdates (channels lp) = []
  ∧ podUpdates (channels lp) = [].
Proof.
  apply (RunLoop_pods_in_order (O := operator)
           [(at_ t1, true); (at_ (t1 + 1 * time.Second), true)]
           (RunStart (K := client) twoPods controller0 twoNamespaces)
           [succeededPod "argo"; succeededPod "staging"] []); reflexivity.
Defined.

Lemma deliverPods_in_order_witness :
  deliverPods [PodObject (succeededPod "argo"); OtherObject;
               PodObject (succeededPod "staging")] noEvents
  = Some twoPods.
Proof.
  apply (deliverPods_in_order (D := decoders)
           [PodObject (succeededPod "argo"); OtherObject;
            PodObject (succeededPod "staging")] noEvents).
  vm_compute. discriminate.
Defined.
